(** * The OpenSSL-backed TLS record codec of vespalib

    A shallow embedding of
    [vespalib/net/tls/impl/openssl_crypto_codec_impl.cpp]: the three
    operations [handshake], [encode] and [decode] of
    [OpenSslCryptoCodecImpl], with the helpers they call, and the
    properties of them that the design document states.

    The codec drives an external TLS engine (OpenSSL).  The engine is a
    parameter of the development (class [Engine]): every theorem holds
    for every engine.  A scripted engine ([Mock]) gives the concrete runs,
    and one that overruns its input region ([Overrun]) a run of its own.

    What is left out: logging ([LOG]), which has no effect on results
    ([ssl_error_to_str], which it uses, is modelled on its own), and the
    constructor, which no operation below depends on.

    Two further units follow the codec: the reference count of
    [UniqueStoreEntryBase] and the address map [SimpleSparseMap]. *)

From Stdlib Require Import ZArith List Bool Lia.
Import ListNotations.
Local Open Scope Z_scope.

(** ** C integer types *)

Module CInt.

Definition INT32_MAX : Z := 2147483647.

(** [size_t] is 64 bits wide; a [size_t] parameter holds a value of
    this range. *)
Definition is_size_t (x : Z) : Prop := 0 <= x < 2 ^ 64.

(** [static_cast<size_t>(x)] *)
Definition to_size_t (x : Z) : Z := x mod 2 ^ 64.

(** [static_cast<int>(x)]: two's complement, 32 bits. *)
Definition to_int (x : Z) : Z := (x + 2 ^ 31) mod 2 ^ 32 - 2 ^ 31.

(** A pointer is its address; [nullptr] is address 0. *)
Definition nullptr : Z := 0.

End CInt.
Export CInt.

(** ** The OpenSSL interface the codec consumes *)

Module OpenSsl.

(** Error codes of [SSL_get_error] (openssl/ssl.h). *)
Definition SSL_ERROR_NONE : Z := 0.
Definition SSL_ERROR_SSL : Z := 1.
Definition SSL_ERROR_WANT_READ : Z := 2.
Definition SSL_ERROR_WANT_WRITE : Z := 3.
Definition SSL_ERROR_WANT_X509_LOOKUP : Z := 4.
Definition SSL_ERROR_SYSCALL : Z := 5.
Definition SSL_ERROR_ZERO_RETURN : Z := 6.
Definition SSL_ERROR_WANT_CONNECT : Z := 7.
Definition SSL_ERROR_WANT_ACCEPT : Z := 8.

(** Modelled from the spec: the buffer views of [direct_buffer_bio.h],
    which is not among the sources.  A view describes a caller-supplied
    contiguous byte region (its address and declared length) and a
    cursor into it.  For the readable input view the cursor counts the
    bytes the engine has drained; for the writable output view it counts
    the bytes the engine has queued. *)
Record ConstBufferView := mkConstBufferView
  { cv_buffer : Z; cv_size : Z; cv_pos : Z }.

Record MutableBufferView := mkMutableBufferView
  { mv_buffer : Z; mv_size : Z; mv_pos : Z }.

(** Modelled from the spec: the two direct-buffer BIOs.  Each is a slot
    that aliases one view for the duration of a call and is empty
    otherwise. *)
Inductive BIO : Type :=
| const_direct_buffer_bio (view : option ConstBufferView)
| mutable_direct_buffer_bio (view : option MutableBufferView).

(** [BIO_pending]: for the input BIO the bytes left to read, for the
    output BIO the bytes written; 0 when no view is attached.  The
    OpenSSL macro yields an [int]. *)
Definition BIO_pending (bio : BIO) : Z :=
  match bio with
  | const_direct_buffer_bio (Some v) => to_int (cv_size v - cv_pos v)
  | mutable_direct_buffer_bio (Some v) => to_int (mv_pos v)
  | const_direct_buffer_bio None => 0
  | mutable_direct_buffer_bio None => 0
  end.

(** The [SSL] object: the engine's private state (session, keys, the
    thread's error queue, and the memory its pointers reach) and the two
    BIOs it owns. *)
Record SSL (S : Type) := mkSSL
  { ssl_private : S;
    rbio : option ConstBufferView;
    wbio : option MutableBufferView }.
Arguments mkSSL {S}.
Arguments ssl_private {S}.
Arguments rbio {S}.
Arguments wbio {S}.

(** The primitives of the engine.  A primitive that can act on the BIOs
    maps the whole [SSL] object to a new one. *)
Class Engine (S : Type) : Type :=
  { ERR_clear_error : S -> S;
    SSL_is_init_finished : SSL S -> bool;
    SSL_get_error : SSL S -> Z -> Z;
    SSL_do_handshake : SSL S -> Z * SSL S;
    SSL_write : SSL S -> Z -> Z -> Z * SSL S;
    SSL_read : SSL S -> Z -> Z -> Z * SSL S }.

End OpenSsl.
Export OpenSsl.

(** ** Result values *)

Module HandshakeResult.
Inductive State := NeedsMorePeerData | Done | Failed.
(** Modelled from the spec: the result struct of [crypto_codec.h]. *)
Record t := mk { bytes_consumed : Z; bytes_produced : Z; state : State }.
(** Modelled from the spec: [failed()] holds when the outcome is Failed. *)
Definition failed (r : t) : bool :=
  match state r with Failed => true | _ => false end.
End HandshakeResult.

Module EncodeResult.
(** Modelled from the spec: the result struct of [crypto_codec.h]. *)
Record t := mk { bytes_consumed : Z; bytes_produced : Z; failed : bool }.
End EncodeResult.

Module DecodeResult.
Inductive State := OK | NeedsMorePeerData | Failed.
(** Modelled from the spec: the result struct of [crypto_codec.h]. *)
Record t := mk { bytes_consumed : Z; bytes_produced : Z; state : State }.
End DecodeResult.

Definition verify_buf (buf : Z) (len : Z) : bool :=
  (len <? INT32_MAX) && ((len =? 0) || negb (buf =? nullptr)).

(** The validation rule in the words of the design document: the length
    fits in a 32-bit signed magnitude and, if the length is nonzero, the
    pointer is non-null.  Kept apart from [verify_buf] to compare the two. *)
Definition documented_verify_buf (buf : Z) (len : Z) : bool :=
  (len <=? INT32_MAX) && ((len =? 0) || negb (buf =? nullptr)).

Definition handshake_consumed_bytes_and_needs_more_peer_data (consumed : Z)
  : HandshakeResult.t :=
  HandshakeResult.mk consumed 0 HandshakeResult.NeedsMorePeerData.

Definition handshake_consumed_bytes_and_is_complete (consumed : Z)
  : HandshakeResult.t :=
  HandshakeResult.mk consumed 0 HandshakeResult.Done.

Definition handshaked_bytes (consumed produced : Z)
  (state : HandshakeResult.State) : HandshakeResult.t :=
  HandshakeResult.mk consumed produced state.

Definition handshake_completed : HandshakeResult.t :=
  HandshakeResult.mk 0 0 HandshakeResult.Done.

Definition handshake_failed : HandshakeResult.t :=
  HandshakeResult.mk 0 0 HandshakeResult.Failed.

Definition encode_failed : EncodeResult.t := EncodeResult.mk 0 0 true.

Definition encoded_bytes (consumed produced : Z) : EncodeResult.t :=
  EncodeResult.mk consumed produced false.

Definition decode_failed : DecodeResult.t :=
  DecodeResult.mk 0 0 DecodeResult.Failed.

Definition decoded_frames_with_plaintext_bytes (produced_bytes : Z)
  : DecodeResult.t :=
  DecodeResult.mk 0 produced_bytes DecodeResult.OK.

Definition decode_needs_more_peer_data : DecodeResult.t :=
  DecodeResult.mk 0 0 DecodeResult.NeedsMorePeerData.

Definition decoded_bytes (consumed produced : Z)
  (state : DecodeResult.State) : DecodeResult.t :=
  DecodeResult.mk consumed produced state.

(** ** Running a member function *)

(** The assertions of the file, by what they check. *)
Inductive Assertion : Type :=
| AssertVerifyBuf
| AssertBytesProducedIsZero
| AssertConsumedNonNegative
| AssertInputPendingNotGrown.

(** A call either returns, or stops the process at a failed [LOG_ASSERT]. *)
Inductive Outcome (A : Type) : Type :=
| Returns (a : A)
| Aborts (why : Assertion).
Arguments Returns {A}.
Arguments Aborts {A}.

(** What a call did to the engine and to the BIO slots, in program order.
    Pure queries ([SSL_is_init_finished], [SSL_get_error], [BIO_pending])
    are not recorded. *)
Inductive Event : Type :=
| EvSetConstView (buffer size : Z)
| EvSetMutableView (buffer size : Z)
| EvUnsetConstView
| EvUnsetMutableView
| EvClearError
| EvDoHandshake
| EvWrite (buf num : Z)
| EvRead (buf num : Z).

Inductive Mode := Client | Server.

Section Codec.

Context {S : Type} {E : Engine S}.

(** The frame ceiling [CryptoCodec::MaximumFramePlaintextSize], a [size_t]
    constant declared in [crypto_codec.h], which is not among the sources:
    a parameter here. *)
Variable MaximumFramePlaintextSize : Z.

Record OpenSslCryptoCodecImpl := mkCodec
  { _ssl : SSL S;
    _mode : Mode }.

(** [_input_bio] and [_output_bio] are raw pointers to the BIOs that
    [_ssl] owns: they alias its [rbio] and [wbio]. *)
Definition _input_bio (c : OpenSslCryptoCodecImpl) : BIO :=
  const_direct_buffer_bio (rbio (_ssl c)).
Definition _output_bio (c : OpenSslCryptoCodecImpl) : BIO :=
  mutable_direct_buffer_bio (wbio (_ssl c)).

Record World := mkWorld
  { this : OpenSslCryptoCodecImpl;
    trace : list Event }.

Definition M (A : Type) : Type := World -> Outcome (A * World).

Definition ret {A} (a : A) : M A := fun w => Returns (a, w).

Definition bind {A B} (m : M A) (k : A -> M B) : M B :=
  fun w =>
    match m w with
    | Returns (a, w') => k a w'
    | Aborts why => Aborts why
    end.

Notation "x <- m ;; k" := (bind m (fun x => k))
  (at level 61, m at next level, right associativity).
Notation "m ;; k" := (bind m (fun _ => k))
  (at level 61, right associativity).

Definition LOG_ASSERT (why : Assertion) (cond : bool) : M unit :=
  fun w => if cond then Returns (tt, w) else Aborts why.

(** Reading a value off the object. *)
Definition query {A} (f : OpenSslCryptoCodecImpl -> A) : M A :=
  fun w => Returns (f (this w), w).

(** Replacing the [SSL] object and recording the event. *)
Definition step {A} (ev : Event) (f : SSL S -> A * SSL S) : M A :=
  fun w =>
    let (a, s') := f (_ssl (this w)) in
    Returns (a, mkWorld (mkCodec s' (_mode (this w))) (trace w ++ [ev])).

Definition call_ERR_clear_error : M unit :=
  step EvClearError
    (fun s => (tt, mkSSL (ERR_clear_error (ssl_private s)) (rbio s) (wbio s))).

Definition call_SSL_is_init_finished : M bool :=
  query (fun c => SSL_is_init_finished (_ssl c)).

Definition call_SSL_get_error (ret_code : Z) : M Z :=
  query (fun c => SSL_get_error (_ssl c) ret_code).

Definition call_SSL_do_handshake : M Z :=
  step EvDoHandshake SSL_do_handshake.

Definition call_SSL_write (buf num : Z) : M Z :=
  step (EvWrite buf num) (fun s => SSL_write s buf num).

Definition call_SSL_read (buf num : Z) : M Z :=
  step (EvRead buf num) (fun s => SSL_read s buf num).

(** Modelled from the spec: the scoped guards of [direct_buffer_bio.h].
    Construction makes the slot alias exactly the given region, with
    the cursor at its start; leaving the scope empties the slot. *)
Definition set_bio_const_buffer_view (buffer sz : Z) : M unit :=
  step (EvSetConstView buffer sz)
    (fun s => (tt, mkSSL (ssl_private s)
                     (Some (mkConstBufferView buffer sz 0)) (wbio s))).

Definition unset_bio_const_buffer_view : M unit :=
  step EvUnsetConstView (fun s => (tt, mkSSL (ssl_private s) None (wbio s))).

Definition set_bio_mutable_buffer_view (buffer sz : Z) : M unit :=
  step (EvSetMutableView buffer sz)
    (fun s => (tt, mkSSL (ssl_private s) (rbio s)
                     (Some (mkMutableBufferView buffer sz 0)))).

Definition unset_bio_mutable_buffer_view : M unit :=
  step EvUnsetMutableView (fun s => (tt, mkSSL (ssl_private s) (rbio s) None)).

(** A guard lives to the end of the enclosing scope: the body's result
    is computed first, then the view is detached.  A failed assertion
    stops the process, so nothing is detached then. *)
Definition ConstBufferViewGuard {A} (buffer sz : Z) (scope : M A) : M A :=
  set_bio_const_buffer_view buffer sz ;;
  r <- scope ;;
  unset_bio_const_buffer_view ;;
  ret r.

Definition MutableBufferViewGuard {A} (buffer sz : Z) (scope : M A) : M A :=
  set_bio_mutable_buffer_view buffer sz ;;
  r <- scope ;;
  unset_bio_mutable_buffer_view ;;
  ret r.

(** *** The member functions *)

Definition do_handshake_and_consume_peer_input_bytes : M HandshakeResult.t :=
  pending_read_before <- query (fun c => BIO_pending (_input_bio c)) ;;
  call_ERR_clear_error ;;
  ssl_result <- call_SSL_do_handshake ;;
  ssl_result <- call_SSL_get_error ssl_result ;;
  pending_read_after <- query (fun c => BIO_pending (_input_bio c)) ;;
  let consumed := pending_read_before - pending_read_after in
  LOG_ASSERT AssertConsumedNonNegative (0 <=? consumed) ;;
  if ssl_result =? SSL_ERROR_WANT_READ then
    ret (handshake_consumed_bytes_and_needs_more_peer_data (to_size_t consumed))
  else if ssl_result =? SSL_ERROR_NONE then
    finished <- call_SSL_is_init_finished ;;
    if negb finished then ret handshake_failed
    else ret (handshake_consumed_bytes_and_is_complete (to_size_t consumed))
  else ret handshake_failed.

Definition handshake (from_peer from_peer_buf_size to_peer to_peer_buf_size : Z)
  : M HandshakeResult.t :=
  LOG_ASSERT AssertVerifyBuf
    (verify_buf from_peer from_peer_buf_size
     && verify_buf to_peer to_peer_buf_size) ;;
  finished <- call_SSL_is_init_finished ;;
  if finished then ret handshake_completed
  else
    ConstBufferViewGuard from_peer from_peer_buf_size (
    MutableBufferViewGuard to_peer to_peer_buf_size (
      consume_res <- do_handshake_and_consume_peer_input_bytes ;;
      LOG_ASSERT AssertBytesProducedIsZero
        (HandshakeResult.bytes_produced consume_res =? 0) ;;
      if HandshakeResult.failed consume_res then ret consume_res
      else
        produced <- query (fun c => BIO_pending (_output_bio c)) ;;
        ret (handshaked_bytes (HandshakeResult.bytes_consumed consume_res)
               (to_size_t produced) (HandshakeResult.state consume_res)))).

(** The tail of [encode] after the write step. *)
Definition encode_finish (bytes_consumed : Z) : M EncodeResult.t :=
  produced <- query (fun c => BIO_pending (_output_bio c)) ;;
  ret (encoded_bytes bytes_consumed (to_size_t produced)).

Definition encode (plaintext plaintext_size ciphertext ciphertext_size : Z)
  : M EncodeResult.t :=
  LOG_ASSERT AssertVerifyBuf
    (verify_buf plaintext plaintext_size
     && verify_buf ciphertext ciphertext_size) ;;
  finished <- call_SSL_is_init_finished ;;
  if negb finished then ret encode_failed
  else
    MutableBufferViewGuard ciphertext ciphertext_size (
      if negb (plaintext_size =? 0) then
        call_ERR_clear_error ;;
        let to_consume :=
          to_int (Z.min plaintext_size MaximumFramePlaintextSize) in
        consumed <- call_SSL_write plaintext to_consume ;;
        if consumed <? 0 then ret encode_failed
        else if negb (consumed =? to_consume) then ret encode_failed
        else encode_finish (to_size_t consumed)
      else encode_finish 0).

Definition drain_and_produce_plaintext_from_ssl (plaintext plaintext_size : Z)
  : M DecodeResult.t :=
  call_ERR_clear_error ;;
  produced <- call_SSL_read plaintext (to_int plaintext_size) ;;
  if 0 <? produced then
    ret (decoded_frames_with_plaintext_bytes (to_size_t produced))
  else
    ssl_error <- call_SSL_get_error produced ;;
    if ssl_error =? SSL_ERROR_WANT_READ then ret decode_needs_more_peer_data
    else ret decode_failed.

Definition decode (ciphertext ciphertext_size plaintext plaintext_size : Z)
  : M DecodeResult.t :=
  LOG_ASSERT AssertVerifyBuf
    (verify_buf ciphertext ciphertext_size
     && verify_buf plaintext plaintext_size) ;;
  finished <- call_SSL_is_init_finished ;;
  if negb finished then ret decode_failed
  else
    ConstBufferViewGuard ciphertext ciphertext_size (
      input_pending_before <- query (fun c => BIO_pending (_input_bio c)) ;;
      produce_res <-
        drain_and_produce_plaintext_from_ssl plaintext
          (to_size_t (to_int plaintext_size)) ;;
      input_pending_after <- query (fun c => BIO_pending (_input_bio c)) ;;
      LOG_ASSERT AssertInputPendingNotGrown
        (input_pending_after <=? input_pending_before) ;;
      let consumed := to_int (input_pending_before - input_pending_after) in
      ret (decoded_bytes (to_size_t consumed)
             (DecodeResult.bytes_produced produce_res)
             (DecodeResult.state produce_res))).

(** *** The engine's view of a call

    The [SSL] object as the engine primitive of a call receives it, and
    what the codec reads off it afterwards. *)

Definition pending_input (s : SSL S) : Z :=
  BIO_pending (const_direct_buffer_bio (rbio s)).

Definition pending_output (s : SSL S) : Z :=
  BIO_pending (mutable_direct_buffer_bio (wbio s)).

Definition clear_error (s : SSL S) : SSL S :=
  mkSSL (ERR_clear_error (ssl_private s)) (rbio s) (wbio s).

Definition with_const_view (buffer sz : Z) (s : SSL S) : SSL S :=
  mkSSL (ssl_private s) (Some (mkConstBufferView buffer sz 0)) (wbio s).

Definition with_mutable_view (buffer sz : Z) (s : SSL S) : SSL S :=
  mkSSL (ssl_private s) (rbio s) (Some (mkMutableBufferView buffer sz 0)).

Definition without_const_view (s : SSL S) : SSL S :=
  mkSSL (ssl_private s) None (wbio s).

Definition without_mutable_view (s : SSL S) : SSL S :=
  mkSSL (ssl_private s) (rbio s) None.

(** [handshake]: both views attached, then the error queue cleared. *)
Definition handshake_entry (w : World)
  (from_peer from_peer_buf_size to_peer to_peer_buf_size : Z) : SSL S :=
  clear_error
    (with_mutable_view to_peer to_peer_buf_size
       (with_const_view from_peer from_peer_buf_size (_ssl (this w)))).

(** [encode]: the output view attached, then the error queue cleared. *)
Definition encode_entry (w : World) (ciphertext ciphertext_size : Z) : SSL S :=
  clear_error (with_mutable_view ciphertext ciphertext_size (_ssl (this w))).

(** [decode]: the input view attached, then the error queue cleared. *)
Definition decode_entry (w : World) (ciphertext ciphertext_size : Z) : SSL S :=
  clear_error (with_const_view ciphertext ciphertext_size (_ssl (this w))).

(** The object and the trace a call leaves behind. *)
Definition leave (w : World) (s : SSL S) (evs : list Event) : World :=
  mkWorld (mkCodec s (_mode (this w))) (trace w ++ evs).

End Codec.

Arguments OpenSslCryptoCodecImpl S : clear implicits.
Arguments World S : clear implicits.

(** ** A scripted engine

    A test double for the engine: its private state says whether the
    handshake is complete and scripts the next primitive call: the value
    it returns, the error [SSL_get_error] then reports, how many bytes it
    drains from the input view and queues in the output view, and whether
    the handshake is complete afterwards.  It never moves a cursor past
    the end of its region. *)

Module Mock.

Record Script := mkScript
  { init_finished : bool;
    next_ret : Z;
    next_error : Z;
    next_drain : Z;
    next_emit : Z;
    next_finished : bool }.

Definition drain (n : Z) (v : ConstBufferView) : ConstBufferView :=
  mkConstBufferView (cv_buffer v) (cv_size v)
    (Z.min (cv_size v) (cv_pos v + n)).

Definition emit (n : Z) (v : MutableBufferView) : MutableBufferView :=
  mkMutableBufferView (mv_buffer v) (mv_size v)
    (Z.min (mv_size v) (mv_pos v + n)).

Definition play (s : SSL Script) : Z * SSL Script :=
  let p := ssl_private s in
  (next_ret p,
   mkSSL (mkScript (next_finished p) (next_ret p) (next_error p)
            (next_drain p) (next_emit p) (next_finished p))
     (option_map (drain (next_drain p)) (rbio s))
     (option_map (emit (next_emit p)) (wbio s))).

#[export] Instance engine : Engine Script :=
  {| ERR_clear_error := fun p => p;
     SSL_is_init_finished := fun s => init_finished (ssl_private s);
     SSL_get_error := fun s _ => next_error (ssl_private s);
     SSL_do_handshake := play;
     SSL_write := fun s _ _ => play s;
     SSL_read := fun s _ _ => play s |}.

(** A fresh codec (no view attached, empty trace) whose engine follows
    the script. *)
Definition world (mode : Mode) (p : Script) : World Script :=
  mkWorld (mkCodec (mkSSL p None None) mode) [].

(** A TLS client before its first flight: the handshake primitive queues
    the ClientHello (here 517 bytes) for the peer and then asks for the
    peer's answer. *)
Definition client_hello : Script :=
  mkScript false (-1) SSL_ERROR_WANT_READ 0 517 false.

(** A TLS server that has read the client's last flight (here 74 bytes)
    and completes the handshake without more output. *)
Definition server_finished : Script :=
  mkScript false 1 SSL_ERROR_NONE 74 0 true.

(** An engine that reports success of the handshake primitive although
    the handshake is not complete. *)
Definition stalled : Script :=
  mkScript false 1 SSL_ERROR_NONE 0 0 false.

(** A handshake that fails on the peer's message (here 7 bytes of an
    alert record are read) after output was queued. *)
Definition handshake_alert : Script :=
  mkScript false (-1) SSL_ERROR_SSL 7 31 false.

(** An established session whose next write accepts 5 bytes of plaintext
    and queues a 27-byte record. *)
Definition write_5 : Script :=
  mkScript true 5 SSL_ERROR_NONE 0 27 true.

(** An established session whose next write accepts only 3 bytes. *)
Definition write_3 : Script :=
  mkScript true 3 SSL_ERROR_NONE 0 25 true.

(** An established session whose next read decodes one 27-byte record
    into 5 bytes of plaintext. *)
Definition read_5 : Script :=
  mkScript true 5 SSL_ERROR_NONE 27 0 true.

(** An established session that is fed 10 bytes of a longer record: the
    engine buffers them and asks for more. *)
Definition read_partial : Script :=
  mkScript true (-1) SSL_ERROR_WANT_READ 10 0 true.

(** An established session that reads a whole 27-byte record and rejects
    it (bad MAC). *)
Definition read_bad_record : Script :=
  mkScript true (-1) SSL_ERROR_SSL 27 0 true.

End Mock.

(** ** An engine that overruns the input region

    A second test double.  Its handshake and read primitives leave the
    cursor of the input view five bytes past the end of the region and
    report that more peer input is needed; nothing is queued for output. *)

Module Overrun.

Record State := mkState { init_finished : bool }.

Definition overrun (v : ConstBufferView) : ConstBufferView :=
  mkConstBufferView (cv_buffer v) (cv_size v) (cv_size v + 5).

Definition play (s : SSL State) : Z * SSL State :=
  (-1, mkSSL (ssl_private s) (option_map overrun (rbio s)) (wbio s)).

#[global] Instance engine : Engine State :=
  {| ERR_clear_error := fun p => p;
     SSL_is_init_finished := fun s => init_finished (ssl_private s);
     SSL_get_error := fun _ _ => SSL_ERROR_WANT_READ;
     SSL_do_handshake := play;
     SSL_write := fun s _ _ => play s;
     SSL_read := fun s _ _ => play s |}.

(** A fresh codec on this engine. *)
Definition world (finished : bool) : World State :=
  mkWorld (mkCodec (mkSSL (mkState finished) None None) Client) [].

End Overrun.

(** ** Names of the error codes

    [ssl_error_to_str] is used for logging only.  Which codes exist
    depends on the version of the OpenSSL headers, a parameter here. *)

From Stdlib Require Import String.

Definition SSL_ERROR_WANT_ASYNC : Z := 9.
Definition SSL_ERROR_WANT_ASYNC_JOB : Z := 10.
Definition SSL_ERROR_WANT_CLIENT_HELLO_CB : Z := 11.

Definition ssl_error_to_str (OPENSSL_VERSION_NUMBER : Z) (ssl_error : Z)
  : string :=
  if ssl_error =? SSL_ERROR_NONE then "SSL_ERROR_NONE"
  else if ssl_error =? SSL_ERROR_ZERO_RETURN then "SSL_ERROR_ZERO_RETURN"
  else if ssl_error =? SSL_ERROR_WANT_READ then "SSL_ERROR_WANT_READ"
  else if ssl_error =? SSL_ERROR_WANT_WRITE then "SSL_ERROR_WANT_WRITE"
  else if ssl_error =? SSL_ERROR_WANT_CONNECT then "SSL_ERROR_WANT_CONNECT"
  else if ssl_error =? SSL_ERROR_WANT_ACCEPT then "SSL_ERROR_WANT_ACCEPT"
  else if ssl_error =? SSL_ERROR_WANT_X509_LOOKUP
       then "SSL_ERROR_WANT_X509_LOOKUP"
  else if (269484032 <=? OPENSSL_VERSION_NUMBER)
          && (ssl_error =? SSL_ERROR_WANT_ASYNC)
       then "SSL_ERROR_WANT_ASYNC"
  else if (269484032 <=? OPENSSL_VERSION_NUMBER)
          && (ssl_error =? SSL_ERROR_WANT_ASYNC_JOB)
       then "SSL_ERROR_WANT_ASYNC_JOB"
  else if (269488128 <=? OPENSSL_VERSION_NUMBER)
          && (ssl_error =? SSL_ERROR_WANT_CLIENT_HELLO_CB)
       then "SSL_ERROR_WANT_CLIENT_HELLO_CB"
  else if ssl_error =? SSL_ERROR_SYSCALL then "SSL_ERROR_SYSCALL"
  else if ssl_error =? SSL_ERROR_SSL then "SSL_ERROR_SSL"
  else "Unknown SSL error code".

(** The codes [ssl_error_to_str] knows under the given headers. *)
Definition known_ssl_error (OPENSSL_VERSION_NUMBER : Z) (ssl_error : Z)
  : bool :=
  (0 <=? ssl_error) && (ssl_error <=? 8)
  || (269484032 <=? OPENSSL_VERSION_NUMBER)
     && (9 <=? ssl_error) && (ssl_error <=? 10)
  || (269488128 <=? OPENSSL_VERSION_NUMBER) && (ssl_error =? 11).

(** ** What the codec expects of the engine between calls

    Whether the handshake is complete is a matter of the session, not of
    the buffer views that happen to be attached. *)
Definition finished_ignores_views {S : Type} {E : Engine S} : Prop :=
  forall (s : SSL S) (r : option ConstBufferView) (o : option MutableBufferView),
    SSL_is_init_finished (mkSSL (ssl_private s) r o) = SSL_is_init_finished s.

(** A caller that makes one [handshake] call per entry of a list of buffer
    arguments, in order, with nothing in between, and collects the
    results. *)
Fixpoint handshake_each {S : Type} {E : Engine S}
    (calls : list (Z * Z * Z * Z)) : M (list HandshakeResult.t) :=
  match calls with
  | [] => ret []
  | (from_peer, from_peer_buf_size, to_peer, to_peer_buf_size) :: rest =>
      bind (handshake from_peer from_peer_buf_size to_peer to_peer_buf_size)
        (fun r => bind (handshake_each rest) (fun rs => ret (r :: rs)))
  end.

(** Both buffers of a [handshake] call pass [verify_buf]. *)
Definition valid_call (call : Z * Z * Z * Z) : Prop :=
  let '(from_peer, from_peer_buf_size, to_peer, to_peer_buf_size) := call in
  verify_buf from_peer from_peer_buf_size = true
  /\ verify_buf to_peer to_peer_buf_size = true.

(** * Reference counts of unique-store entries

    [vespalib/datastore/unique_store_entry_base.h]: the reference count
    is a [uint32_t], incremented and decremented without a guard. *)

Module UniqueStoreEntryBase.

Record t := mk { _ref_count : Z }.

(** The constructor. *)
Definition new : t := mk 0.

Definition get_ref_count (e : t) : Z := _ref_count e.

(** The parameter is a [uint32_t]. *)
Definition set_ref_count (ref_count : Z) (e : t) : t := mk ref_count.

Definition inc_ref_count (e : t) : t := mk ((_ref_count e + 1) mod 2 ^ 32).

Definition dec_ref_count (e : t) : t := mk ((_ref_count e - 1) mod 2 ^ 32).

(** The values a [uint32_t] member holds. *)
Definition in_range (e : t) : Prop := 0 <= _ref_count e < 2 ^ 32.

End UniqueStoreEntryBase.

(** * The map from sparse addresses to subspace indexes

    [eval/eval/simple_sparse_map.h].  The label hash (XXH3) is a
    parameter.  A template argument [T] of [hash_addr], [add_mapping] and
    [lookup] is a kind of label: a string (by value, by reference or by
    pointer) or a [HashedLabel]. *)

Module SimpleSparseMap.

Section WithHash.

Variable XXH3_64bits : string -> Z.

Record HashedLabel := mkHashedLabel { label : string; hash : Z }.

(** [HashedLabel()] *)
Definition HashedLabel_default : HashedLabel := mkHashedLabel "" 0.

(** [HashedLabel(str)], for each of the three string forms. *)
Definition HashedLabel_of_string (str : string) : HashedLabel :=
  mkHashedLabel str (XXH3_64bits str).

(** What the templates need of a label type [T]: the overload of
    [hash_label] for it and the constructor of [HashedLabel] from it (what
    [emplace_back] calls).  Each constructor stores the hash that
    [hash_label] gives. *)
Record LabelKind (T : Type) := mkLabelKind
  { hash_label : T -> Z;
    emplace : T -> HashedLabel;
    emplace_keeps_hash : forall x : T, hash (emplace x) = hash_label x }.
Arguments hash_label {T}.
Arguments emplace {T}.
Arguments emplace_keeps_hash {T}.

Definition string_labels : LabelKind string :=
  mkLabelKind string XXH3_64bits HashedLabel_of_string (fun _ => eq_refl).

Definition hashed_labels : LabelKind HashedLabel :=
  mkLabelKind HashedLabel hash (fun l => l) (fun _ => eq_refl).

Record Key := mkKey { start : Z; key_hash : Z }.

(** [Equal]: keys are compared by hash alone. *)
Definition Equal (a b : Key) : bool := key_hash a =? key_hash b.
Definition Equal_hash (a : Key) (b : Z) : bool := key_hash a =? b.

(** Modelled from the spec: [vespalib::hash_map], which is not among the
    sources, as the list of its entries.  Keys are compared with [Equal];
    [insert] adds an entry unless an equal key is present; [size] counts
    the entries. *)
Definition MapType : Type := list (Key * Z).

Definition map_find (h : Z) (m : MapType) : option (Key * Z) :=
  List.find (fun e => Equal_hash (fst e) h) m.

Definition map_insert (e : Key * Z) (m : MapType) : MapType :=
  match List.find (fun e' => Equal (fst e') (fst e)) m with
  | Some _ => m
  | None => m ++ [e]
  end.

Definition map_size (m : MapType) : Z := Z.of_nat (List.length m).

Record t := mk
  { _num_dims : Z;
    _labels : list HashedLabel;
    _map : MapType }.

(** The constructor; the reservations have no effect on contents. *)
Definition new (num_dims_in expected_subspaces : Z) : t :=
  mk num_dims_in [] [].

Definition size (m : t) : Z := map_size (_map m).
Definition num_dims (m : t) : Z := _num_dims m.
(** [size_t(-1)] *)
Definition npos : Z := 2 ^ 64 - 1.
Definition labels (m : t) : list HashedLabel := _labels m.

(** A [uint32_t] initialised from a [size_t]. *)
Definition to_uint32 (x : Z) : Z := x mod 2 ^ 32.

(** The [_num_dims] labels from [start] on. *)
Definition make_addr (m : t) (start : Z) : list HashedLabel :=
  firstn (Z.to_nat (_num_dims m)) (skipn (Z.to_nat start) (_labels m)).

Definition hash_addr {T : Type} (K : LabelKind T) (addr : list T) : Z :=
  fold_left (fun h label => (31 * h + hash_label K label) mod 2 ^ 64) addr 0.

(** [add_mapping(addr, hash)] *)
Definition add_mapping_with_hash {T : Type} (K : LabelKind T)
    (addr : list T) (hash : Z) (m : t) : t :=
  let value := to_uint32 (size m) in
  let start := to_uint32 (Z.of_nat (List.length (_labels m))) in
  let labels' :=
    fold_left (fun ls label => ls ++ [emplace K label]) addr (_labels m) in
  mk (_num_dims m) labels' (map_insert (mkKey start hash, value) (_map m)).

(** [add_mapping(addr)]: the hash is built from the labels as stored. *)
Definition add_mapping {T : Type} (K : LabelKind T)
    (addr : list T) (m : t) : t :=
  let value := to_uint32 (size m) in
  let start := to_uint32 (Z.of_nat (List.length (_labels m))) in
  let '(labels', h) :=
    fold_left
      (fun (acc : list HashedLabel * Z) label =>
         let ls := fst acc ++ [emplace K label] in
         (ls, (31 * snd acc + hash (List.last ls HashedLabel_default))
                mod 2 ^ 64))
      addr (_labels m, 0) in
  mk (_num_dims m) labels' (map_insert (mkKey start h, value) (_map m)).

(** [lookup(hash)] *)
Definition lookup_hash (h : Z) (m : t) : Z :=
  match map_find h (_map m) with
  | None => npos
  | Some pos => snd pos
  end.

(** [lookup(addr)] *)
Definition lookup {T : Type} (K : LabelKind T) (addr : list T) (m : t) : Z :=
  lookup_hash (hash_addr K addr) m.

(** The map after [add_mapping(addr)] for each address of a list, in
    order, starting from a new map. *)
Definition build {T : Type} (K : LabelKind T)
    (num_dims_in expected_subspaces : Z) (addrs : list (list T)) : t :=
  fold_left (fun m addr => add_mapping K addr m) addrs
    (new num_dims_in expected_subspaces).

(** Every stored value is a [uint32_t]. *)
Definition values_in_range (m : t) : Prop :=
  Forall (fun e : Key * Z => 0 <= snd e < 2 ^ 32) (_map m).

(** What [build] leaves: one entry per address, in order, numbered from
    0, each with the hash of its address and the position of its first
    label; and the labels of all addresses, in order. *)
Definition built {T : Type} (K : LabelKind T)
    (nd : Z) (addrs : list (list T)) (m : t) : Prop :=
  _num_dims m = nd
  /\ List.length (_map m) = List.length addrs
  /\ _labels m = List.map (emplace K) (List.concat addrs)
  /\ (forall (k : nat) (a : list T),
        nth_error addrs k = Some a ->
        nth_error (_map m) k
        = Some (mkKey
                  (to_uint32
                     (Z.of_nat (List.length (List.concat (firstn k addrs)))))
                  (hash_addr K a),
                Z.of_nat k)).

End WithHash.

Arguments hash_label {T}.
Arguments emplace {T}.
Arguments emplace_keeps_hash {T}.

End SimpleSparseMap.

(** A small example for the concrete runs: the length of a label stands
    in for its XXH3 hash, and two addresses of two labels each. *)
Module SparseMapExample.

Definition length_hash (str : string) : Z := Z.of_nat (String.length str).

Definition by_length : SimpleSparseMap.LabelKind string :=
  SimpleSparseMap.string_labels length_hash.

Definition first_address : list string := ["a"; "bb"]%string.
Definition second_address : list string := ["ccc"; "d"]%string.

End SparseMapExample.

(** ** Casts that keep the value *)

Lemma to_int_id (x : Z) : - 2 ^ 31 <= x < 2 ^ 31 -> to_int x = x.
Proof.
  intros Hx. unfold to_int.
  rewrite Z.mod_small by lia. lia.
Qed.

Lemma to_size_t_id (x : Z) : 0 <= x < 2 ^ 64 -> to_size_t x = x.
Proof.
  intros Hx. unfold to_size_t. now apply Z.mod_small.
Qed.

Lemma to_size_t_range (x : Z) : 0 <= to_size_t x < 2 ^ 64.
Proof.
  unfold to_size_t. apply Z.mod_pos_bound. lia.
Qed.


Lemma verify_buf_spec (buf len : Z) :
  verify_buf buf len = true <->
  len < INT32_MAX /\ (len = 0 \/ buf <> nullptr).
Proof.
  unfold verify_buf.
  rewrite andb_true_iff, orb_true_iff, negb_true_iff.
  rewrite Z.ltb_lt, !Z.eqb_eq, Z.eqb_neq. tauto.
Qed.

(** A verified length of a [size_t] parameter survives the cast to [int]. *)
Lemma verified_len_to_int (buf len : Z) :
  verify_buf buf len = true -> 0 <= len -> to_int len = len.
Proof.
  intros Hv Hlen. apply verify_buf_spec in Hv. destruct Hv as [Hlt _].
  apply to_int_id. unfold INT32_MAX in Hlt. lia.
Qed.

Section Runs.

Context {S : Type} {E : Engine S}.

Ltac run :=
  unfold handshake, encode, decode,
    do_handshake_and_consume_peer_input_bytes,
    drain_and_produce_plaintext_from_ssl, encode_finish,
    ConstBufferViewGuard, MutableBufferViewGuard,
    set_bio_const_buffer_view, unset_bio_const_buffer_view,
    set_bio_mutable_buffer_view, unset_bio_mutable_buffer_view,
    call_ERR_clear_error, call_SSL_is_init_finished, call_SSL_get_error,
    call_SSL_do_handshake, call_SSL_write, call_SSL_read,
    step, query, bind, ret, LOG_ASSERT.

Ltac tidy_trace := rewrite <- ?app_assoc; cbn [app].

Lemma handshake_run (w : World S) (from_peer fsz to_peer tsz ret : Z)
    (s1 : SSL S) :
  verify_buf from_peer fsz = true ->
  verify_buf to_peer tsz = true ->
  SSL_is_init_finished (_ssl (this w)) = false ->
  SSL_do_handshake (handshake_entry w from_peer fsz to_peer tsz) = (ret, s1) ->
  handshake from_peer fsz to_peer tsz w =
    let consumed :=
      pending_input (handshake_entry w from_peer fsz to_peer tsz)
      - pending_input s1 in
    let err := SSL_get_error s1 ret in
    if 0 <=? consumed then
      Returns
        (if err =? SSL_ERROR_WANT_READ then
           HandshakeResult.mk (to_size_t consumed)
             (to_size_t (pending_output s1)) HandshakeResult.NeedsMorePeerData
         else if (err =? SSL_ERROR_NONE) && SSL_is_init_finished s1 then
           HandshakeResult.mk (to_size_t consumed)
             (to_size_t (pending_output s1)) HandshakeResult.Done
         else handshake_failed,
         leave w (without_const_view (without_mutable_view s1))
           [EvSetConstView from_peer fsz; EvSetMutableView to_peer tsz;
            EvClearError; EvDoHandshake;
            EvUnsetMutableView; EvUnsetConstView])
    else Aborts AssertConsumedNonNegative.
Proof.
  intros Hin Hout Hfin Hstep.
  unfold handshake_entry, clear_error, with_mutable_view, with_const_view in *.
  cbn in Hstep |- *.
  run. cbn. rewrite Hin, Hout. cbn. rewrite Hfin. cbn. rewrite Hstep. cbn.
  unfold pending_input. cbn.
  destruct (0 <=? _); [|reflexivity].
  destruct (SSL_get_error s1 ret =? SSL_ERROR_WANT_READ).
  - cbn. unfold leave, pending_output. cbn. tidy_trace. reflexivity.
  - destruct (SSL_get_error s1 ret =? SSL_ERROR_NONE); cbn.
    + destruct (SSL_is_init_finished s1); cbn;
        unfold leave, pending_output; cbn; tidy_trace; reflexivity.
    + unfold leave. cbn. tidy_trace. reflexivity.
Qed.

Lemma handshake_done_run (w : World S) (from_peer fsz to_peer tsz : Z) :
  verify_buf from_peer fsz = true ->
  verify_buf to_peer tsz = true ->
  SSL_is_init_finished (_ssl (this w)) = true ->
  handshake from_peer fsz to_peer tsz w = Returns (handshake_completed, w).
Proof.
  intros Hin Hout Hfin. run. cbn. rewrite Hin, Hout. cbn.
  rewrite Hfin. reflexivity.
Qed.

Lemma handshake_invalid_run (w : World S) (from_peer fsz to_peer tsz : Z) :
  verify_buf from_peer fsz && verify_buf to_peer tsz = false ->
  handshake from_peer fsz to_peer tsz w = Aborts AssertVerifyBuf.
Proof.
  intros Hv. run. cbn. rewrite Hv. reflexivity.
Qed.

Lemma encode_invalid_run (Max : Z) (w : World S) (pt psz ct csz : Z) :
  verify_buf pt psz && verify_buf ct csz = false ->
  encode Max pt psz ct csz w = Aborts AssertVerifyBuf.
Proof.
  intros Hv. run. cbn. rewrite Hv. reflexivity.
Qed.

Lemma decode_invalid_run (w : World S) (ct csz pt psz : Z) :
  verify_buf ct csz && verify_buf pt psz = false ->
  decode ct csz pt psz w = Aborts AssertVerifyBuf.
Proof.
  intros Hv. run. cbn. rewrite Hv. reflexivity.
Qed.

Lemma encode_early_run (Max : Z) (w : World S) (pt psz ct csz : Z) :
  verify_buf pt psz = true ->
  verify_buf ct csz = true ->
  SSL_is_init_finished (_ssl (this w)) = false ->
  encode Max pt psz ct csz w = Returns (encode_failed, w).
Proof.
  intros Hin Hout Hfin. run. cbn. rewrite Hin, Hout. cbn.
  rewrite Hfin. reflexivity.
Qed.

Lemma decode_early_run (w : World S) (ct csz pt psz : Z) :
  verify_buf ct csz = true ->
  verify_buf pt psz = true ->
  SSL_is_init_finished (_ssl (this w)) = false ->
  decode ct csz pt psz w = Returns (decode_failed, w).
Proof.
  intros Hin Hout Hfin. run. cbn. rewrite Hin, Hout. cbn.
  rewrite Hfin. reflexivity.
Qed.

Lemma encode_run (Max : Z) (w : World S) (pt psz ct csz n : Z) (s1 : SSL S) :
  verify_buf pt psz = true ->
  verify_buf ct csz = true ->
  SSL_is_init_finished (_ssl (this w)) = true ->
  psz <> 0 ->
  SSL_write (encode_entry w ct csz) pt (to_int (Z.min psz Max)) = (n, s1) ->
  encode Max pt psz ct csz w =
    Returns
      (if (n <? 0) || negb (n =? to_int (Z.min psz Max)) then encode_failed
       else encoded_bytes (to_size_t n) (to_size_t (pending_output s1)),
       leave w (without_mutable_view s1)
         [EvSetMutableView ct csz; EvClearError;
          EvWrite pt (to_int (Z.min psz Max)); EvUnsetMutableView]).
Proof.
  intros Hin Hout Hfin Hne Hstep.
  unfold encode_entry, clear_error, with_mutable_view in *.
  cbn in Hstep |- *.
  run. cbn. rewrite Hin, Hout. cbn. rewrite Hfin. cbn.
  apply Z.eqb_neq in Hne. rewrite Hne. cbn. rewrite Hstep. cbn.
  destruct (n <? 0); cbn.
  - unfold leave. cbn. tidy_trace. reflexivity.
  - destruct (n =? _); cbn; unfold leave, pending_output; cbn;
      tidy_trace; reflexivity.
Qed.

Lemma decode_run (w : World S) (ct csz pt psz n : Z) (s1 : SSL S) :
  verify_buf ct csz = true ->
  verify_buf pt psz = true ->
  SSL_is_init_finished (_ssl (this w)) = true ->
  SSL_read (decode_entry w ct csz) pt (to_int (to_size_t (to_int psz)))
    = (n, s1) ->
  decode ct csz pt psz w =
    let before := pending_input (decode_entry w ct csz) in
    let after := pending_input s1 in
    if after <=? before then
      Returns
        (if 0 <? n then
           DecodeResult.mk (to_size_t (to_int (before - after)))
             (to_size_t n) DecodeResult.OK
         else if SSL_get_error s1 n =? SSL_ERROR_WANT_READ then
           DecodeResult.mk (to_size_t (to_int (before - after)))
             0 DecodeResult.NeedsMorePeerData
         else
           DecodeResult.mk (to_size_t (to_int (before - after)))
             0 DecodeResult.Failed,
         leave w (without_const_view s1)
           [EvSetConstView ct csz; EvClearError;
            EvRead pt (to_int (to_size_t (to_int psz))); EvUnsetConstView])
    else Aborts AssertInputPendingNotGrown.
Proof.
  intros Hin Hout Hfin Hstep.
  unfold decode_entry, clear_error, with_const_view in *.
  cbn in Hstep |- *.
  run. cbn. rewrite Hin, Hout. cbn. rewrite Hfin. cbn. rewrite Hstep. cbn.
  unfold pending_input. cbn.
  destruct (0 <? n); cbn.
  - destruct (_ <=? _); [|reflexivity].
    unfold leave. cbn. tidy_trace. reflexivity.
  - destruct (SSL_get_error s1 n =? SSL_ERROR_WANT_READ); cbn;
      (destruct (_ <=? _); [|reflexivity]);
      unfold leave; cbn; tidy_trace; reflexivity.
Qed.

Lemma do_handshake_produces_nothing (w w' : World S) (r : HandshakeResult.t) :
  do_handshake_and_consume_peer_input_bytes w = Returns (r, w') ->
  HandshakeResult.bytes_produced r = 0.
Proof.
  run. cbn.
  destruct (SSL_do_handshake _) as [ret s1]. cbn.
  destruct (0 <=? _); [|discriminate]. cbn.
  destruct (_ =? SSL_ERROR_WANT_READ); cbn.
  - intros H. inversion H. reflexivity.
  - destruct (_ =? SSL_ERROR_NONE); cbn.
    + destruct (SSL_is_init_finished s1); cbn;
        intros H; inversion H; reflexivity.
    + intros H. inversion H. reflexivity.
Qed.


Lemma pending_input_decode_entry (w : World S) (ct csz : Z) :
  verify_buf ct csz = true -> 0 <= csz ->
  pending_input (decode_entry w ct csz) = csz.
Proof.
  intros Hv Hpos. unfold pending_input. cbn.
  rewrite Z.sub_0_r. eapply verified_len_to_int; eassumption.
Qed.


(** The argument that [decode] hands to [SSL_read] is the declared length
    of the plaintext buffer. *)
Lemma decode_read_size (pt psz : Z) :
  verify_buf pt psz = true -> 0 <= psz ->
  to_int (to_size_t (to_int psz)) = psz.
Proof.
  intros Hv Hpos.
  pose proof (verified_len_to_int _ _ Hv Hpos) as Hi. rewrite Hi.
  apply verify_buf_spec in Hv. unfold INT32_MAX in Hv.
  rewrite to_size_t_id by lia. exact Hi.
Qed.

Lemma handshake_passes_entry (w : World S) (from_peer fsz to_peer tsz : Z) :
  verify_buf from_peer fsz && verify_buf to_peer tsz = true ->
  handshake from_peer fsz to_peer tsz w <> Aborts AssertVerifyBuf.
Proof.
  intros Hv. apply andb_true_iff in Hv. destruct Hv as [Hin Hout].
  destruct (SSL_is_init_finished (_ssl (this w))) eqn:Hfin.
  - rewrite handshake_done_run by assumption. discriminate.
  - destruct (SSL_do_handshake (handshake_entry w from_peer fsz to_peer tsz))
      as [ret s1] eqn:Hstep.
    rewrite (handshake_run w _ _ _ _ ret s1 Hin Hout Hfin Hstep).
    cbv zeta. destruct (0 <=? _); discriminate.
Qed.

Lemma encode_passes_entry (Max : Z) (w : World S) (pt psz ct csz : Z) :
  verify_buf pt psz && verify_buf ct csz = true ->
  exists r w', encode Max pt psz ct csz w = Returns (r, w').
Proof.
  intros Hv. apply andb_true_iff in Hv. destruct Hv as [Hin Hout].
  destruct (SSL_is_init_finished (_ssl (this w))) eqn:Hfin.
  - destruct (Z.eq_dec psz 0) as [Hz|Hnz].
    + run. cbn. rewrite Hin, Hout. cbn. rewrite Hfin. cbn.
      apply Z.eqb_eq in Hz. rewrite Hz. cbn. eauto.
    + destruct (SSL_write (encode_entry w ct csz) pt
                  (to_int (Z.min psz Max))) as [n s1] eqn:Hstep.
      rewrite (encode_run Max w _ _ _ _ n s1 Hin Hout Hfin Hnz Hstep). eauto.
  - rewrite encode_early_run by assumption. eauto.
Qed.

Lemma decode_passes_entry (w : World S) (ct csz pt psz : Z) :
  verify_buf ct csz && verify_buf pt psz = true ->
  decode ct csz pt psz w <> Aborts AssertVerifyBuf.
Proof.
  intros Hv. apply andb_true_iff in Hv. destruct Hv as [Hin Hout].
  destruct (SSL_is_init_finished (_ssl (this w))) eqn:Hfin.
  - destruct (SSL_read (decode_entry w ct csz) pt
                (to_int (to_size_t (to_int psz)))) as [n s1] eqn:Hstep.
    rewrite (decode_run w _ _ _ _ n s1 Hin Hout Hfin Hstep).
    cbv zeta. destruct (_ <=? _); discriminate.
  - rewrite decode_early_run by assumption. discriminate.
Qed.

End Runs.

(** ** The properties *)

Section Claims.

Context {S : Type} {E : Engine S}.

(** C1 (as amended).  When the handshake primitive reports that it needs
    more peer input, and the input queue did not grow, [handshake] returns
    NeedsMorePeerData with [bytes_produced] equal to the number of bytes
    pending in the output view after the engine call, which can be
    nonzero.  Only the intermediate result of
    [do_handshake_and_consume_peer_input_bytes] always has
    [bytes_produced = 0]; that is what [handshake] asserts. *)
Theorem handshake_want_read_reports_pending_output
    (w : World S) (from_peer fsz to_peer tsz ret : Z) (s1 : SSL S) :
  verify_buf from_peer fsz = true ->
  verify_buf to_peer tsz = true ->
  SSL_is_init_finished (_ssl (this w)) = false ->
  SSL_do_handshake (handshake_entry w from_peer fsz to_peer tsz) = (ret, s1) ->
  SSL_get_error s1 ret = SSL_ERROR_WANT_READ ->
  pending_input s1
    <= pending_input (handshake_entry w from_peer fsz to_peer tsz) ->
  handshake from_peer fsz to_peer tsz w =
    Returns
      (HandshakeResult.mk
         (to_size_t
            (pending_input (handshake_entry w from_peer fsz to_peer tsz)
             - pending_input s1))
         (to_size_t (pending_output s1))
         HandshakeResult.NeedsMorePeerData,
       leave w (without_const_view (without_mutable_view s1))
         [EvSetConstView from_peer fsz; EvSetMutableView to_peer tsz;
          EvClearError; EvDoHandshake;
          EvUnsetMutableView; EvUnsetConstView])
  /\ (forall (w0 w0' : World S) (r : HandshakeResult.t),
        do_handshake_and_consume_peer_input_bytes w0 = Returns (r, w0') ->
        HandshakeResult.bytes_produced r = 0).
Proof.
  intros Hin Hout Hfin Hstep Herr Hmono. split.
  - rewrite (handshake_run w _ _ _ _ ret s1 Hin Hout Hfin Hstep).
    cbv zeta. rewrite Herr.
    replace (0 <=? _) with true by (symmetry; apply Z.leb_le; lia).
    reflexivity.
  - intros w0 w0' r. apply do_handshake_produces_nothing.
Qed.

(** C2.  [encode] and [decode], called with buffers that pass the entry
    check while the handshake is not complete, return Failed with
    [bytes_consumed = 0] and [bytes_produced = 0] and leave everything as
    it was: the engine state (which holds the memory behind the buffers),
    the BIO slots, and the trace, so no engine primitive was invoked. *)
Theorem encode_decode_before_handshake_done_fail
    (Max : Z) (w : World S) (src src_size dst dst_size : Z) :
  verify_buf src src_size = true ->
  verify_buf dst dst_size = true ->
  SSL_is_init_finished (_ssl (this w)) = false ->
  encode Max src src_size dst dst_size w
    = Returns (EncodeResult.mk 0 0 true, w)
  /\ decode src src_size dst dst_size w
    = Returns (DecodeResult.mk 0 0 DecodeResult.Failed, w).
Proof.
  intros Hin Hout Hfin. split.
  - now apply encode_early_run.
  - now apply decode_early_run.
Qed.

(** C3.  [handshake], called with buffers that pass the entry check after
    the handshake has completed, returns [{0, 0, Done}] and leaves
    everything as it was: no view is attached and no engine primitive is
    invoked.  Any number of further calls give the same. *)
Theorem handshake_after_done_is_noop
    (w : World S) (from_peer fsz to_peer tsz : Z) (n : nat) :
  verify_buf from_peer fsz = true ->
  verify_buf to_peer tsz = true ->
  SSL_is_init_finished (_ssl (this w)) = true ->
  handshake from_peer fsz to_peer tsz w
    = Returns (HandshakeResult.mk 0 0 HandshakeResult.Done, w)
  /\ Nat.iter n
       (fun rest => bind (handshake from_peer fsz to_peer tsz) (fun _ => rest))
       (handshake from_peer fsz to_peer tsz) w
    = Returns (HandshakeResult.mk 0 0 HandshakeResult.Done, w).
Proof.
  intros Hin Hout Hfin.
  assert (Hone : handshake from_peer fsz to_peer tsz w
                 = Returns (HandshakeResult.mk 0 0 HandshakeResult.Done, w))
    by now apply handshake_done_run.
  split; [exact Hone|].
  induction n as [|n IH].
  - exact Hone.
  - rewrite Nat.iter_succ. unfold bind at 1. rewrite Hone. exact IH.
Qed.

(** C4.  [encode] with the handshake done and a non-empty plaintext calls
    the engine's write primitive once, with exactly
    [min plaintext_size MaximumFramePlaintextSize] bytes.  If the engine
    accepts fewer bytes than that (or reports any other number), the call
    returns Failed; the call succeeds only when the engine accepts them
    all, and on success [bytes_consumed] is that number. *)
Theorem encode_writes_one_clamped_span
    (Max : Z) (w : World S) (pt psz ct csz n : Z) (s1 : SSL S) :
  verify_buf pt psz = true ->
  verify_buf ct csz = true ->
  SSL_is_init_finished (_ssl (this w)) = true ->
  0 < psz ->
  is_size_t Max ->
  SSL_write (encode_entry w ct csz) pt (Z.min psz Max) = (n, s1) ->
  exists r : EncodeResult.t,
    encode Max pt psz ct csz w =
      Returns
        (r,
         leave w (without_mutable_view s1)
           [EvSetMutableView ct csz; EvClearError;
            EvWrite pt (Z.min psz Max); EvUnsetMutableView])
    /\ (n < Z.min psz Max -> r = EncodeResult.mk 0 0 true)
    /\ (n = Z.min psz Max ->
        EncodeResult.failed r = false
        /\ EncodeResult.bytes_consumed r = Z.min psz Max)
    /\ (EncodeResult.failed r = false ->
        n = Z.min psz Max
        /\ EncodeResult.bytes_consumed r = Z.min psz Max)
    /\ (n <> Z.min psz Max -> r = EncodeResult.mk 0 0 true).
Proof.
  intros Hin Hout Hfin Hne HMax Hstep.
  assert (Hclamp : to_int (Z.min psz Max) = Z.min psz Max).
  { apply verify_buf_spec in Hin. unfold INT32_MAX in Hin.
    unfold is_size_t in HMax. apply to_int_id. lia. }
  rewrite <- Hclamp in Hstep.
  rewrite (encode_run Max w pt psz ct csz n s1 Hin Hout Hfin
             ltac:(lia) Hstep).
  rewrite Hclamp.
  eexists. split; [reflexivity|].
  unfold is_size_t in HMax.
  destruct (Z.eq_dec n (Z.min psz Max)) as [Heq|Hneq].
  - subst n.
    replace (Z.min psz Max <? 0) with false
      by (symmetry; apply Z.ltb_ge; lia).
    rewrite Z.eqb_refl. cbn.
    assert (Hcons : to_size_t (Z.min psz Max) = Z.min psz Max)
      by (apply to_size_t_id; lia).
    repeat split; try exact Hcons; try lia; try congruence.
  - replace (n =? Z.min psz Max) with false
      by (symmetry; now apply Z.eqb_neq).
    rewrite orb_true_r. cbn.
    repeat split; try reflexivity; try congruence; try discriminate.
Qed.

(** C5.  [decode] with the handshake done, when the input queue did not
    grow: a positive return of the read primitive gives Ok with
    [bytes_produced] equal to it; a report that more input is needed gives
    NeedsMorePeerData with [bytes_produced = 0]; any other error gives
    Failed.  In all three [bytes_consumed] is the drop of the buffered
    input size, which can be nonzero. *)
Theorem decode_outcome_follows_read
    (w : World S) (ct csz pt psz n : Z) (s1 : SSL S) :
  verify_buf ct csz = true ->
  verify_buf pt psz = true ->
  is_size_t psz ->
  SSL_is_init_finished (_ssl (this w)) = true ->
  SSL_read (decode_entry w ct csz) pt psz = (n, s1) ->
  n <= INT32_MAX ->
  pending_input s1 <= pending_input (decode_entry w ct csz) ->
  exists r : DecodeResult.t,
    decode ct csz pt psz w =
      Returns
        (r,
         leave w (without_const_view s1)
           [EvSetConstView ct csz; EvClearError; EvRead pt psz;
            EvUnsetConstView])
    /\ DecodeResult.bytes_consumed r =
         to_size_t
           (to_int (pending_input (decode_entry w ct csz) - pending_input s1))
    /\ (0 < n ->
        DecodeResult.state r = DecodeResult.OK
        /\ DecodeResult.bytes_produced r = n)
    /\ (n <= 0 -> SSL_get_error s1 n = SSL_ERROR_WANT_READ ->
        DecodeResult.state r = DecodeResult.NeedsMorePeerData
        /\ DecodeResult.bytes_produced r = 0)
    /\ (n <= 0 -> SSL_get_error s1 n <> SSL_ERROR_WANT_READ ->
        DecodeResult.state r = DecodeResult.Failed).
Proof.
  intros Hin Hout Hpsz Hfin Hstep Hint Hmono.
  assert (Hsize : to_int (to_size_t (to_int psz)) = psz)
    by (apply (decode_read_size pt); [exact Hout | apply Hpsz]).
  rewrite <- Hsize in Hstep.
  rewrite (decode_run w ct csz pt psz n s1 Hin Hout Hfin Hstep).
  cbv zeta. rewrite Hsize.
  replace (_ <=? _) with true by (symmetry; apply Z.leb_le; lia).
  eexists. split; [reflexivity|].
  destruct (0 <? n) eqn:Hpos.
  - apply Z.ltb_lt in Hpos. cbn. repeat split; try lia.
    apply to_size_t_id. unfold INT32_MAX in Hint. lia.
  - apply Z.ltb_ge in Hpos.
    destruct (SSL_get_error s1 n =? SSL_ERROR_WANT_READ) eqn:Herr; cbn.
    + apply Z.eqb_eq in Herr. repeat split; lia || congruence.
    + apply Z.eqb_neq in Herr. repeat split; lia || congruence.
Qed.

(** C6.  When the handshake primitive reports that no more peer input is
    needed but the engine's handshake-complete query is false, and the
    input queue did not grow, [handshake] returns Failed, after a single
    call of the primitive. *)
Theorem handshake_incomplete_without_want_read_fails
    (w : World S) (from_peer fsz to_peer tsz ret : Z) (s1 : SSL S) :
  verify_buf from_peer fsz = true ->
  verify_buf to_peer tsz = true ->
  SSL_is_init_finished (_ssl (this w)) = false ->
  SSL_do_handshake (handshake_entry w from_peer fsz to_peer tsz) = (ret, s1) ->
  SSL_get_error s1 ret = SSL_ERROR_NONE ->
  SSL_is_init_finished s1 = false ->
  pending_input s1
    <= pending_input (handshake_entry w from_peer fsz to_peer tsz) ->
  exists r : HandshakeResult.t,
    handshake from_peer fsz to_peer tsz w =
      Returns
        (r,
         leave w (without_const_view (without_mutable_view s1))
           [EvSetConstView from_peer fsz; EvSetMutableView to_peer tsz;
            EvClearError; EvDoHandshake;
            EvUnsetMutableView; EvUnsetConstView])
    /\ HandshakeResult.state r = HandshakeResult.Failed.
Proof.
  intros Hin Hout Hfin Hstep Herr Hnot Hmono.
  rewrite (handshake_run w _ _ _ _ ret s1 Hin Hout Hfin Hstep).
  cbv zeta. rewrite Herr, Hnot.
  replace (0 <=? _) with true by (symmetry; apply Z.leb_le; lia).
  cbn. eexists. split; reflexivity.
Qed.


(** C8 (as amended).  [handshake], [encode] and [decode] check each
    supplied buffer with the same predicate, and the entry assertion fails
    exactly when it rejects one of the two buffers.  The predicate rejects
    a buffer exactly when its length is not strictly below [INT32_MAX]
    (2^31 - 1) or its length is nonzero with a null pointer; a null
    pointer with length zero passes. *)
Theorem entry_assertion_fails_iff_verify_buf_rejects
    (Max : Z) (w : World S) (src src_size dst dst_size : Z) :
  (handshake src src_size dst dst_size w = Aborts AssertVerifyBuf
   <-> verify_buf src src_size && verify_buf dst dst_size = false)
  /\ (encode Max src src_size dst dst_size w = Aborts AssertVerifyBuf
      <-> verify_buf src src_size && verify_buf dst dst_size = false)
  /\ (decode src src_size dst dst_size w = Aborts AssertVerifyBuf
      <-> verify_buf src src_size && verify_buf dst dst_size = false)
  /\ (forall buf len : Z,
        verify_buf buf len = false
        <-> INT32_MAX <= len \/ (len <> 0 /\ buf = nullptr))
  /\ verify_buf nullptr 0 = true.
Proof.
  repeat split.
  - intros H. destruct (verify_buf src src_size && verify_buf dst dst_size)
      eqn:Hv; [|reflexivity].
    now apply (handshake_passes_entry w) in Hv.
  - apply handshake_invalid_run.
  - intros H. destruct (verify_buf src src_size && verify_buf dst dst_size)
      eqn:Hv; [|reflexivity].
    destruct (encode_passes_entry Max w _ _ _ _ Hv) as (r & w' & Hr).
    rewrite Hr in H. discriminate.
  - apply encode_invalid_run.
  - intros H. destruct (verify_buf src src_size && verify_buf dst dst_size)
      eqn:Hv; [|reflexivity].
    now apply (decode_passes_entry w) in Hv.
  - apply decode_invalid_run.
  - intros H. destruct (Z_lt_le_dec len INT32_MAX) as [Hlt|Hge]; [|now left].
    right. destruct (Z.eq_dec len 0) as [Hz|Hnz].
    + exfalso. subst len.
      assert (verify_buf buf 0 = true) by (apply verify_buf_spec; auto).
      congruence.
    + split; [exact Hnz|]. destruct (Z.eq_dec buf nullptr); [assumption|].
      exfalso.
      assert (verify_buf buf len = true) by (apply verify_buf_spec; auto).
      congruence.
  - intros H. destruct (verify_buf buf len) eqn:Hv; [|reflexivity].
    apply verify_buf_spec in Hv. exfalso. lia.
Qed.

(** C9.  When [decode] runs with the handshake done and the read primitive
    fails (no plaintext, an error other than "needs more input") after the
    engine has drained bytes from the input queue, the Failed result
    carries the drop of the buffered input size as [bytes_consumed], which
    is nonzero: it differs from the [{0, 0, Failed}] of a call before the
    handshake is complete. *)
Theorem failed_decode_reports_drained_bytes
    (w : World S) (ct csz pt psz n : Z) (s1 : SSL S) :
  verify_buf ct csz = true ->
  verify_buf pt psz = true ->
  is_size_t csz ->
  is_size_t psz ->
  SSL_is_init_finished (_ssl (this w)) = true ->
  SSL_read (decode_entry w ct csz) pt psz = (n, s1) ->
  n <= 0 ->
  SSL_get_error s1 n <> SSL_ERROR_WANT_READ ->
  0 <= pending_input s1 < csz ->
  decode ct csz pt psz w =
    Returns
      (DecodeResult.mk (csz - pending_input s1) 0 DecodeResult.Failed,
       leave w (without_const_view s1)
         [EvSetConstView ct csz; EvClearError; EvRead pt psz;
          EvUnsetConstView])
  /\ 0 < csz - pending_input s1
  /\ DecodeResult.mk (csz - pending_input s1) 0 DecodeResult.Failed
     <> decode_failed.
Proof.
  intros Hin Hout Hcsz Hpsz Hfin Hstep Hn Herr Hdrain.
  unfold is_size_t in *.
  assert (Hsize : to_int (to_size_t (to_int psz)) = psz)
    by (apply (decode_read_size pt); [exact Hout | lia]).
  rewrite <- Hsize in Hstep.
  rewrite (decode_run w ct csz pt psz n s1 Hin Hout Hfin Hstep).
  cbv zeta. rewrite Hsize.
  rewrite (pending_input_decode_entry w ct csz Hin) by lia.
  pose proof (proj1 (verify_buf_spec _ _) Hin) as [Hlt _].
  unfold INT32_MAX in Hlt.
  replace (_ <=? _) with true by (symmetry; apply Z.leb_le; lia).
  replace (0 <? n) with false by (symmetry; apply Z.ltb_ge; lia).
  replace (_ =? SSL_ERROR_WANT_READ) with false
    by (symmetry; now apply Z.eqb_neq).
  rewrite to_int_id by lia. rewrite to_size_t_id by lia.
  repeat split; [lia|].
  unfold decode_failed. intros H. inversion H. lia.
Qed.

(** C10.  When the handshake step fails (the primitive reports an error
    other than "needs more input", or reports none while the handshake is
    not complete), [handshake] returns exactly [{0, 0, Failed}], whatever
    the engine drained or queued.  No result of [handshake] with outcome
    Failed carries a nonzero byte count. *)
Theorem failed_handshake_reports_no_bytes
    (w : World S) (from_peer fsz to_peer tsz ret : Z) (s1 : SSL S) :
  verify_buf from_peer fsz = true ->
  verify_buf to_peer tsz = true ->
  SSL_is_init_finished (_ssl (this w)) = false ->
  SSL_do_handshake (handshake_entry w from_peer fsz to_peer tsz) = (ret, s1) ->
  pending_input s1
    <= pending_input (handshake_entry w from_peer fsz to_peer tsz) ->
  SSL_get_error s1 ret <> SSL_ERROR_WANT_READ ->
  SSL_get_error s1 ret <> SSL_ERROR_NONE \/ SSL_is_init_finished s1 = false ->
  handshake from_peer fsz to_peer tsz w =
    Returns
      (HandshakeResult.mk 0 0 HandshakeResult.Failed,
       leave w (without_const_view (without_mutable_view s1))
         [EvSetConstView from_peer fsz; EvSetMutableView to_peer tsz;
          EvClearError; EvDoHandshake;
          EvUnsetMutableView; EvUnsetConstView])
  /\ (forall (w0 w0' : World S) (a asz b bsz : Z) (r : HandshakeResult.t),
        handshake a asz b bsz w0 = Returns (r, w0') ->
        HandshakeResult.state r = HandshakeResult.Failed ->
        r = HandshakeResult.mk 0 0 HandshakeResult.Failed).
Proof.
  intros Hin Hout Hfin Hstep Hmono Hnw Hfail. split.
  - rewrite (handshake_run w _ _ _ _ ret s1 Hin Hout Hfin Hstep).
    cbv zeta.
    replace (0 <=? _) with true by (symmetry; apply Z.leb_le; lia).
    replace (_ =? SSL_ERROR_WANT_READ) with false
      by (symmetry; now apply Z.eqb_neq).
    destruct Hfail as [Hne|Hnot].
    + replace (_ =? SSL_ERROR_NONE) with false
        by (symmetry; now apply Z.eqb_neq).
      reflexivity.
    + rewrite Hnot, andb_false_r. reflexivity.
  - clear. intros w0 w0' a asz b bsz r Hrun Hstate.
    destruct (verify_buf a asz && verify_buf b bsz) eqn:Hv.
    2:{ rewrite handshake_invalid_run in Hrun by exact Hv. discriminate. }
    apply andb_true_iff in Hv. destruct Hv as [Hin Hout].
    destruct (SSL_is_init_finished (_ssl (this w0))) eqn:Hfin.
    + rewrite handshake_done_run in Hrun by assumption.
      inversion Hrun. subst r. discriminate.
    + destruct (SSL_do_handshake (handshake_entry w0 a asz b bsz))
        as [ret0 s0] eqn:Hstep.
      rewrite (handshake_run w0 _ _ _ _ ret0 s0 Hin Hout Hfin Hstep) in Hrun.
      cbv zeta in Hrun.
      destruct (0 <=? _); [|discriminate].
      inversion Hrun. subst r. clear Hrun.
      destruct (_ =? SSL_ERROR_WANT_READ); [discriminate|].
      destruct (_ && _); [discriminate|reflexivity].
Qed.

End Claims.

(** ** Concrete runs *)

Section Scenarios.

Import Mock.

(** C1: a TLS client's first [handshake] call.  The engine reports that it
    needs more peer input, and the result carries the 517 bytes of the
    ClientHello that it queued: NeedsMorePeerData together with
    [bytes_produced = 517]. *)
Lemma client_hello_needs_more_data_and_produces_bytes :
  SSL_get_error
    (snd (SSL_do_handshake
            (handshake_entry (world Client client_hello) 1000 0 2000 4096)))
    (fst (SSL_do_handshake
            (handshake_entry (world Client client_hello) 1000 0 2000 4096)))
    = SSL_ERROR_WANT_READ
  /\ exists (r : HandshakeResult.t) (w' : World Script),
       handshake 1000 0 2000 4096 (world Client client_hello) = Returns (r, w')
       /\ HandshakeResult.state r = HandshakeResult.NeedsMorePeerData
       /\ HandshakeResult.bytes_produced r = 517
       /\ HandshakeResult.bytes_produced r <> 0.
Proof.
  split; [reflexivity|].
  eexists. eexists. split; [reflexivity|].
  cbn. repeat split. discriminate.
Qed.

Lemma handshake_want_read_reports_pending_output_witness :
  exists w' : World Script,
    handshake 1000 0 2000 4096 (world Client client_hello) =
      Returns
        (HandshakeResult.mk 0 517 HandshakeResult.NeedsMorePeerData, w').
Proof.
  eexists.
  refine (proj1 (handshake_want_read_reports_pending_output
                   (world Client client_hello) 1000 0 2000 4096
                   (fst (SSL_do_handshake
                           (handshake_entry (world Client client_hello)
                              1000 0 2000 4096)))
                   (snd (SSL_do_handshake
                           (handshake_entry (world Client client_hello)
                              1000 0 2000 4096)))
                   _ _ _ _ _ _));
    first [reflexivity | now vm_compute].
Defined.

Lemma encode_decode_before_handshake_done_fail_witness :
  encode 16384 1000 5 2000 4096 (world Client client_hello)
    = Returns (EncodeResult.mk 0 0 true, world Client client_hello)
  /\ decode 1000 5 2000 4096 (world Client client_hello)
    = Returns (DecodeResult.mk 0 0 DecodeResult.Failed, world Client client_hello).
Proof.
  apply (encode_decode_before_handshake_done_fail 16384
           (world Client client_hello) 1000 5 2000 4096); reflexivity.
Defined.

Lemma handshake_after_done_is_noop_witness :
  handshake 1000 27 2000 4096 (world Server read_5)
    = Returns (HandshakeResult.mk 0 0 HandshakeResult.Done, world Server read_5)
  /\ Nat.iter 3
       (fun rest => bind (handshake 1000 27 2000 4096) (fun _ => rest))
       (handshake 1000 27 2000 4096) (world Server read_5)
    = Returns (HandshakeResult.mk 0 0 HandshakeResult.Done, world Server read_5).
Proof.
  apply (handshake_after_done_is_noop (world Server read_5)
           1000 27 2000 4096 3); reflexivity.
Defined.

Lemma encode_writes_one_clamped_span_witness :
  exists (r : EncodeResult.t) (w' : World Script),
    encode 16384 1000 5 2000 4096 (world Client write_5) = Returns (r, w')
    /\ trace w' =
         [EvSetMutableView 2000 4096; EvClearError; EvWrite 1000 5;
          EvUnsetMutableView]
    /\ EncodeResult.failed r = false
    /\ EncodeResult.bytes_consumed r = 5.
Proof.
  destruct (encode_writes_one_clamped_span 16384 (world Client write_5)
              1000 5 2000 4096
              (fst (SSL_write (encode_entry (world Client write_5) 2000 4096)
                      1000 5))
              (snd (SSL_write (encode_entry (world Client write_5) 2000 4096)
                      1000 5)))
    as (r & Hrun & _ & Hall & _);
    try first [reflexivity | now vm_compute].
  exists r. eexists. split; [exact Hrun|].
  split; [reflexivity|]. apply Hall. reflexivity.
Defined.

Lemma decode_outcome_follows_read_witness :
  exists (r : DecodeResult.t) (w' : World Script),
    decode 1000 27 2000 4096 (world Client read_5) = Returns (r, w')
    /\ DecodeResult.state r = DecodeResult.OK
    /\ DecodeResult.bytes_produced r = 5.
Proof.
  destruct (decode_outcome_follows_read (world Client read_5)
              1000 27 2000 4096
              (fst (SSL_read (decode_entry (world Client read_5) 1000 27)
                      2000 4096))
              (snd (SSL_read (decode_entry (world Client read_5) 1000 27)
                      2000 4096)))
    as (r & Hrun & _ & Hok & _);
    try first [reflexivity | now vm_compute].
  exists r. eexists. split; [exact Hrun|]. apply Hok. reflexivity.
Defined.

Lemma handshake_incomplete_without_want_read_fails_witness :
  exists (r : HandshakeResult.t) (w' : World Script),
    handshake 1000 0 2000 4096 (world Client stalled) = Returns (r, w')
    /\ HandshakeResult.state r = HandshakeResult.Failed.
Proof.
  destruct (handshake_incomplete_without_want_read_fails
              (world Client stalled) 1000 0 2000 4096
              (fst (SSL_do_handshake
                      (handshake_entry (world Client stalled)
                         1000 0 2000 4096)))
              (snd (SSL_do_handshake
                      (handshake_entry (world Client stalled)
                         1000 0 2000 4096))))
    as (r & Hrun & Hstate);
    try first [reflexivity | now vm_compute].
  exists r. eexists. split; [exact Hrun|exact Hstate].
Defined.



Lemma failed_decode_reports_drained_bytes_witness :
  exists w' : World Script,
    decode 1000 27 2000 4096 (world Client read_bad_record) =
      Returns (DecodeResult.mk 27 0 DecodeResult.Failed, w').
Proof.
  eexists.
  refine (proj1 (failed_decode_reports_drained_bytes
                   (world Client read_bad_record) 1000 27 2000 4096
                   (fst (SSL_read
                           (decode_entry (world Client read_bad_record)
                              1000 27) 2000 4096))
                   (snd (SSL_read
                           (decode_entry (world Client read_bad_record)
                              1000 27) 2000 4096))
                   _ _ _ _ _ _ _ _ _));
    first [reflexivity | now vm_compute].
Defined.

Lemma failed_handshake_reports_no_bytes_witness :
  exists w' : World Script,
    handshake 1000 7 2000 4096 (world Server handshake_alert) =
      Returns (HandshakeResult.mk 0 0 HandshakeResult.Failed, w').
Proof.
  eexists.
  refine (proj1 (failed_handshake_reports_no_bytes
                   (world Server handshake_alert) 1000 7 2000 4096
                   (fst (SSL_do_handshake
                           (handshake_entry (world Server handshake_alert)
                              1000 7 2000 4096)))
                   (snd (SSL_do_handshake
                           (handshake_entry (world Server handshake_alert)
                              1000 7 2000 4096)))
                   _ _ _ _ _ _ _));
    first [reflexivity | now vm_compute | left; now vm_compute].
Defined.

(** C8: a non-null buffer of length [INT32_MAX].  The length fits in a
    32-bit signed magnitude, so the documented rule accepts the buffer,
    but [verify_buf] rejects it and the call stops at its entry
    assertion. *)
Lemma buffer_of_length_int32_max_is_rejected :
  documented_verify_buf 1000 2147483647 = true
  /\ verify_buf 1000 2147483647 = false
  /\ verify_buf 2000 4096 = true
  /\ handshake 1000 2147483647 2000 4096 (world Server server_finished)
     = Aborts AssertVerifyBuf
  /\ encode 16384 1000 2147483647 2000 4096 (world Client write_5)
     = Aborts AssertVerifyBuf
  /\ decode 1000 2147483647 2000 4096 (world Client read_5)
     = Aborts AssertVerifyBuf.
Proof.
  repeat split.
Qed.

End Scenarios.

(** ** Further properties of the codec *)

Section CodecCases.

Context {S : Type} {E : Engine S}.

(** Every way a [handshake] call can end. *)
Lemma handshake_cases (w : World S) (from_peer fsz to_peer tsz : Z) :
  handshake from_peer fsz to_peer tsz w = Aborts AssertVerifyBuf
  \/ (SSL_is_init_finished (_ssl (this w)) = true
      /\ handshake from_peer fsz to_peer tsz w
         = Returns (handshake_completed, w))
  \/ (SSL_is_init_finished (_ssl (this w)) = false
      /\ pending_input (handshake_entry w from_peer fsz to_peer tsz)
         < pending_input
             (snd (SSL_do_handshake
                     (handshake_entry w from_peer fsz to_peer tsz)))
      /\ handshake from_peer fsz to_peer tsz w
         = Aborts AssertConsumedNonNegative)
  \/ (exists (r : HandshakeResult.t) (s1 : SSL S),
        handshake from_peer fsz to_peer tsz w =
          Returns
            (r,
             leave w (without_const_view (without_mutable_view s1))
               [EvSetConstView from_peer fsz; EvSetMutableView to_peer tsz;
                EvClearError; EvDoHandshake;
                EvUnsetMutableView; EvUnsetConstView])
        /\ (HandshakeResult.state r = HandshakeResult.Done ->
            SSL_is_init_finished s1 = true)).
Proof.
  destruct (verify_buf from_peer fsz && verify_buf to_peer tsz) eqn:Hv.
  2:{ left. now apply handshake_invalid_run. }
  apply andb_true_iff in Hv. destruct Hv as [Hin Hout].
  destruct (SSL_is_init_finished (_ssl (this w))) eqn:Hfin.
  { right. left. split; [reflexivity|]. now apply handshake_done_run. }
  destruct (SSL_do_handshake (handshake_entry w from_peer fsz to_peer tsz))
    as [ret s1] eqn:Hstep.
  rewrite (handshake_run w _ _ _ _ ret s1 Hin Hout Hfin Hstep).
  cbv zeta. cbn [snd].
  destruct (0 <=? _) eqn:Hle.
  - right. right. right. eexists. exists s1. split; [reflexivity|].
    destruct (_ =? SSL_ERROR_WANT_READ); [discriminate|].
    destruct (_ =? SSL_ERROR_NONE); cbn; [|discriminate].
    destruct (SSL_is_init_finished s1); [reflexivity|discriminate].
  - right. right. left. apply Z.leb_gt in Hle.
    split; [reflexivity|]. split; [lia|reflexivity].
Qed.

(** Every way an [encode] call can end. *)
Lemma encode_cases (Max : Z) (w : World S) (pt psz ct csz : Z) :
  encode Max pt psz ct csz w = Aborts AssertVerifyBuf
  \/ encode Max pt psz ct csz w = Returns (encode_failed, w)
  \/ (psz = 0
      /\ encode Max pt psz ct csz w =
           Returns
             (encoded_bytes 0 0,
              leave w (without_mutable_view (_ssl (this w)))
                [EvSetMutableView ct csz; EvUnsetMutableView]))
  \/ (exists (n : Z) (s1 : SSL S),
        psz <> 0
        /\ SSL_write (encode_entry w ct csz) pt (to_int (Z.min psz Max))
           = (n, s1)
        /\ encode Max pt psz ct csz w =
             Returns
               (if (n <? 0) || negb (n =? to_int (Z.min psz Max))
                then encode_failed
                else encoded_bytes (to_size_t n)
                       (to_size_t (pending_output s1)),
                leave w (without_mutable_view s1)
                  [EvSetMutableView ct csz; EvClearError;
                   EvWrite pt (to_int (Z.min psz Max));
                   EvUnsetMutableView])).
Proof.
  destruct (verify_buf pt psz && verify_buf ct csz) eqn:Hv.
  2:{ left. now apply encode_invalid_run. }
  pose proof Hv as Hboth.
  apply andb_true_iff in Hv. destruct Hv as [Hin Hout].
  destruct (SSL_is_init_finished (_ssl (this w))) eqn:Hfin.
  2:{ right. left. now apply encode_early_run. }
  destruct (Z.eq_dec psz 0) as [Hz|Hnz].
  - right. right. left. split; [exact Hz|]. subst psz.
    unfold encode, encode_finish, MutableBufferViewGuard,
      set_bio_mutable_buffer_view, unset_bio_mutable_buffer_view,
      call_SSL_is_init_finished, step, query, bind, ret, LOG_ASSERT.
    rewrite Hboth. cbn. rewrite Hfin. cbn.
    unfold leave, without_mutable_view. cbn.
    rewrite <- app_assoc. reflexivity.
  - right. right. right.
    destruct (SSL_write (encode_entry w ct csz) pt (to_int (Z.min psz Max)))
      as [n s1] eqn:Hstep.
    exists n, s1. split; [exact Hnz|]. split; [reflexivity|].
    now apply encode_run.
Qed.

(** Every way a [decode] call can end. *)
Lemma decode_cases (w : World S) (ct csz pt psz : Z) :
  decode ct csz pt psz w = Aborts AssertVerifyBuf
  \/ decode ct csz pt psz w = Returns (decode_failed, w)
  \/ (SSL_is_init_finished (_ssl (this w)) = true
      /\ pending_input (decode_entry w ct csz)
         < pending_input
             (snd (SSL_read (decode_entry w ct csz) pt
                     (to_int (to_size_t (to_int psz)))))
      /\ decode ct csz pt psz w = Aborts AssertInputPendingNotGrown)
  \/ (exists (n : Z) (s1 : SSL S) (consumed : Z),
        SSL_read (decode_entry w ct csz) pt (to_int (to_size_t (to_int psz)))
          = (n, s1)
        /\ decode ct csz pt psz w =
             Returns
               (if 0 <? n then
                  DecodeResult.mk consumed (to_size_t n) DecodeResult.OK
                else if SSL_get_error s1 n =? SSL_ERROR_WANT_READ then
                  DecodeResult.mk consumed 0 DecodeResult.NeedsMorePeerData
                else DecodeResult.mk consumed 0 DecodeResult.Failed,
                leave w (without_const_view s1)
                  [EvSetConstView ct csz; EvClearError;
                   EvRead pt (to_int (to_size_t (to_int psz)));
                   EvUnsetConstView])).
Proof.
  destruct (verify_buf ct csz && verify_buf pt psz) eqn:Hv.
  2:{ left. now apply decode_invalid_run. }
  apply andb_true_iff in Hv. destruct Hv as [Hin Hout].
  destruct (SSL_is_init_finished (_ssl (this w))) eqn:Hfin.
  2:{ right. left. now apply decode_early_run. }
  destruct (SSL_read (decode_entry w ct csz) pt
              (to_int (to_size_t (to_int psz)))) as [n s1] eqn:Hstep.
  rewrite (decode_run w _ _ _ _ n s1 Hin Hout Hfin Hstep).
  cbv zeta. cbn [snd].
  destruct (_ <=? _) eqn:Hle.
  - right. right. right. exists n, s1. eexists.
    split; reflexivity.
  - right. right. left. apply Z.leb_gt in Hle.
    split; [reflexivity|]. split; [lia|reflexivity].
Qed.

Lemma handshake_done_leaves_finished
    (w w' : World S) (from_peer fsz to_peer tsz : Z) (r : HandshakeResult.t) :
  finished_ignores_views ->
  handshake from_peer fsz to_peer tsz w = Returns (r, w') ->
  HandshakeResult.state r = HandshakeResult.Done ->
  SSL_is_init_finished (_ssl (this w')) = true.
Proof.
  intros Hlaw Hrun Hdone.
  destruct (handshake_cases w from_peer fsz to_peer tsz)
    as [Hc|[[Hf Hc]|[(_ & _ & Hc)|(r0 & s1 & Hc & Hd)]]];
    rewrite Hc in Hrun; inversion Hrun; subst.
  - exact Hf.
  - cbn. unfold without_const_view, without_mutable_view. cbn.
    rewrite (Hlaw s1). now apply Hd.
Qed.

End CodecCases.

Section CodecExtras.

Context {S : Type} {E : Engine S}.

(** X1.  When the handshake primitive reports no error and the engine's
    handshake-complete query holds afterwards, and the input queue did not
    grow, [handshake] returns Done with [bytes_consumed] the drop of the
    buffered input size and [bytes_produced] the bytes pending in the
    output view. *)
Theorem handshake_completes
    (w : World S) (from_peer fsz to_peer tsz ret : Z) (s1 : SSL S) :
  verify_buf from_peer fsz = true ->
  verify_buf to_peer tsz = true ->
  SSL_is_init_finished (_ssl (this w)) = false ->
  SSL_do_handshake (handshake_entry w from_peer fsz to_peer tsz) = (ret, s1) ->
  SSL_get_error s1 ret = SSL_ERROR_NONE ->
  SSL_is_init_finished s1 = true ->
  pending_input s1
    <= pending_input (handshake_entry w from_peer fsz to_peer tsz) ->
  handshake from_peer fsz to_peer tsz w =
    Returns
      (HandshakeResult.mk
         (to_size_t
            (pending_input (handshake_entry w from_peer fsz to_peer tsz)
             - pending_input s1))
         (to_size_t (pending_output s1))
         HandshakeResult.Done,
       leave w (without_const_view (without_mutable_view s1))
         [EvSetConstView from_peer fsz; EvSetMutableView to_peer tsz;
          EvClearError; EvDoHandshake;
          EvUnsetMutableView; EvUnsetConstView]).
Proof.
  intros Hin Hout Hfin Hstep Herr Hdone Hmono.
  rewrite (handshake_run w _ _ _ _ ret s1 Hin Hout Hfin Hstep).
  cbv zeta. rewrite Herr, Hdone.
  replace (0 <=? _) with true by (symmetry; apply Z.leb_le; lia).
  reflexivity.
Qed.

(** X2.  [handshake] stops at an assertion only for a rejected buffer or
    for an input queue that grew across the engine call, the latter
    exactly when the buffers are valid, the handshake was not complete and
    the buffered input size after the call exceeds the size before.  The
    assertion on the intermediate [bytes_produced] never fails. *)
Theorem handshake_aborts_only_on_contract_breach
    (w : World S) (from_peer fsz to_peer tsz : Z) :
  (forall why : Assertion,
     handshake from_peer fsz to_peer tsz w = Aborts why ->
     why = AssertVerifyBuf \/ why = AssertConsumedNonNegative)
  /\ (handshake from_peer fsz to_peer tsz w = Aborts AssertConsumedNonNegative
      <-> verify_buf from_peer fsz && verify_buf to_peer tsz = true
          /\ SSL_is_init_finished (_ssl (this w)) = false
          /\ pending_input (handshake_entry w from_peer fsz to_peer tsz)
             < pending_input
                 (snd (SSL_do_handshake
                         (handshake_entry w from_peer fsz to_peer tsz)))).
Proof.
  split.
  - intros why H.
    destruct (handshake_cases w from_peer fsz to_peer tsz)
      as [Hc|[[_ Hc]|[(_ & _ & Hc)|(r & s1 & Hc & _)]]];
      rewrite Hc in H; inversion H; auto.
  - split.
    + intros H.
      destruct (verify_buf from_peer fsz && verify_buf to_peer tsz) eqn:Hv.
      2:{ rewrite handshake_invalid_run in H by exact Hv. discriminate. }
      split; [reflexivity|].
      destruct (handshake_cases w from_peer fsz to_peer tsz)
        as [Hc|[[_ Hc]|[(Hfin & Hgrow & _)|(r & s1 & Hc & _)]]];
        try (rewrite Hc in H; discriminate).
      split; assumption.
    + intros (Hv & Hfin & Hgrow).
      apply andb_true_iff in Hv. destruct Hv as [Hin Hout].
      destruct (SSL_do_handshake (handshake_entry w from_peer fsz to_peer tsz))
        as [ret s1] eqn:Hstep.
      rewrite (handshake_run w _ _ _ _ ret s1 Hin Hout Hfin Hstep).
      cbv zeta. cbn [snd] in Hgrow.
      replace (0 <=? _) with false by (symmetry; apply Z.leb_gt; lia).
      reflexivity.
Qed.

(** X3.  [encode] has no assertion past its entry check: it stops only
    for a rejected buffer, and with valid buffers it returns a result
    whatever the engine does. *)
Theorem encode_aborts_only_at_entry
    (Max : Z) (w : World S) (pt psz ct csz : Z) :
  (forall why : Assertion,
     encode Max pt psz ct csz w = Aborts why ->
     why = AssertVerifyBuf
     /\ verify_buf pt psz && verify_buf ct csz = false)
  /\ (verify_buf pt psz && verify_buf ct csz = true ->
      exists (r : EncodeResult.t) (w' : World S),
        encode Max pt psz ct csz w = Returns (r, w')).
Proof.
  split.
  - intros why H.
    destruct (verify_buf pt psz && verify_buf ct csz) eqn:Hv.
    + destruct (encode_passes_entry Max w _ _ _ _ Hv) as (r & w' & Hr).
      rewrite Hr in H. discriminate.
    + rewrite encode_invalid_run in H by exact Hv.
      inversion H. split; reflexivity.
  - apply encode_passes_entry.
Qed.

(** X4.  [encode] with the handshake done and a non-empty plaintext
    succeeds exactly when the write primitive reports the whole clamped
    span as accepted: a negative return, fewer bytes and also more bytes
    than requested all give the result [{0, 0, failed}], whatever the
    engine queued in the output view. *)
Theorem encode_succeeds_iff_whole_span_accepted
    (Max : Z) (w : World S) (pt psz ct csz n : Z) (s1 : SSL S) :
  verify_buf pt psz = true ->
  verify_buf ct csz = true ->
  SSL_is_init_finished (_ssl (this w)) = true ->
  0 < psz ->
  is_size_t Max ->
  SSL_write (encode_entry w ct csz) pt (Z.min psz Max) = (n, s1) ->
  exists (r : EncodeResult.t) (w' : World S),
    encode Max pt psz ct csz w = Returns (r, w')
    /\ (EncodeResult.failed r = false <-> n = Z.min psz Max)
    /\ (n <> Z.min psz Max -> r = EncodeResult.mk 0 0 true)
    /\ (n = Z.min psz Max ->
        r = EncodeResult.mk (Z.min psz Max)
              (to_size_t (pending_output s1)) false).
Proof.
  intros Hin Hout Hfin Hne HMax Hstep.
  assert (Hclamp : to_int (Z.min psz Max) = Z.min psz Max).
  { apply verify_buf_spec in Hin. unfold INT32_MAX in Hin.
    unfold is_size_t in HMax. apply to_int_id. lia. }
  rewrite <- Hclamp in Hstep.
  rewrite (encode_run Max w pt psz ct csz n s1 Hin Hout Hfin
             ltac:(lia) Hstep).
  rewrite Hclamp. eexists. eexists. split; [reflexivity|].
  unfold is_size_t in HMax.
  destruct (Z.eq_dec n (Z.min psz Max)) as [Heq|Hneq].
  - subst n.
    replace (Z.min psz Max <? 0) with false
      by (symmetry; apply Z.ltb_ge; lia).
    rewrite Z.eqb_refl. cbn.
    repeat split; try congruence.
    intros _. unfold encoded_bytes. f_equal.
    apply to_size_t_id. lia.
  - replace (n =? Z.min psz Max) with false
      by (symmetry; now apply Z.eqb_neq).
    rewrite orb_true_r. cbn.
    repeat split; try congruence; try discriminate.
Qed.

(** X5.  [encode] with the handshake done and an empty plaintext (a null
    pointer included) is a poll: it attaches and releases the output
    view, invokes no engine primitive, and returns success with
    [{0, 0}]. *)
Theorem encode_of_empty_plaintext_is_a_poll
    (Max : Z) (w : World S) (pt ct csz : Z) :
  verify_buf ct csz = true ->
  SSL_is_init_finished (_ssl (this w)) = true ->
  encode Max pt 0 ct csz w =
    Returns
      (EncodeResult.mk 0 0 false,
       leave w (without_mutable_view (_ssl (this w)))
         [EvSetMutableView ct csz; EvUnsetMutableView]).
Proof.
  intros Hout Hfin.
  destruct (encode_cases Max w pt 0 ct csz)
    as [Hc|[Hc|[[_ Hc]|(n & s1 & Hnz & _)]]].
  - exfalso. revert Hc. apply not_eq_sym.
    intros H. symmetry in H.
    destruct (encode_passes_entry Max w pt 0 ct csz) as (r & w' & Hr).
    + rewrite Hout. reflexivity.
    + rewrite Hr in H. discriminate.
  - exfalso.
    unfold encode, encode_finish, MutableBufferViewGuard,
      set_bio_mutable_buffer_view, unset_bio_mutable_buffer_view,
      call_SSL_is_init_finished, step, query, bind, ret, LOG_ASSERT in Hc.
    cbn in Hc. rewrite Hout in Hc. cbn in Hc. rewrite Hfin in Hc.
    cbn in Hc. inversion Hc.
  - exact Hc.
  - now contradiction Hnz.
Qed.

(** X6.  Whatever the engine returns, a result of [encode] never reports
    more consumed plaintext than the caller supplied, nor more than the
    frame ceiling. *)
Theorem encode_consumes_at_most_one_frame
    (Max : Z) (w w' : World S) (pt psz ct csz : Z) (r : EncodeResult.t) :
  is_size_t psz ->
  is_size_t Max ->
  encode Max pt psz ct csz w = Returns (r, w') ->
  0 <= EncodeResult.bytes_consumed r <= Z.min psz Max.
Proof.
  unfold is_size_t. intros Hpsz HMax Hrun.
  destruct (verify_buf pt psz && verify_buf ct csz) eqn:Hv.
  2:{ rewrite encode_invalid_run in Hrun by exact Hv. discriminate. }
  apply andb_true_iff in Hv. destruct Hv as [Hin _].
  apply verify_buf_spec in Hin. unfold INT32_MAX in Hin.
  destruct (encode_cases Max w pt psz ct csz)
    as [Hc|[Hc|[[_ Hc]|(n & s1 & Hnz & _ & Hc)]]];
    rewrite Hc in Hrun; inversion Hrun; subst r; cbn; try lia.
  rewrite to_int_id by lia.
  destruct (n <? 0) eqn:Hneg; cbn; [lia|].
  destruct (n =? Z.min psz Max) eqn:Heq; cbn; [|lia].
  apply Z.eqb_eq in Heq. apply Z.ltb_ge in Hneg.
  rewrite to_size_t_id by lia. lia.
Qed.

(** X7.  [decode] stops at an assertion only for a rejected buffer or for
    an input queue that grew across the read, the latter exactly when the
    buffers are valid, the handshake is complete and the buffered input
    size after the read exceeds the size before. *)
Theorem decode_aborts_only_on_contract_breach
    (w : World S) (ct csz pt psz : Z) :
  (forall why : Assertion,
     decode ct csz pt psz w = Aborts why ->
     why = AssertVerifyBuf \/ why = AssertInputPendingNotGrown)
  /\ (decode ct csz pt psz w = Aborts AssertInputPendingNotGrown
      <-> verify_buf ct csz && verify_buf pt psz = true
          /\ SSL_is_init_finished (_ssl (this w)) = true
          /\ pending_input (decode_entry w ct csz)
             < pending_input
                 (snd (SSL_read (decode_entry w ct csz) pt
                         (to_int (to_size_t (to_int psz)))))).
Proof.
  split.
  - intros why H.
    destruct (decode_cases w ct csz pt psz)
      as [Hc|[Hc|[(_ & _ & Hc)|(n & s1 & c & _ & Hc)]]];
      rewrite Hc in H; inversion H; auto.
  - split.
    + intros H.
      destruct (verify_buf ct csz && verify_buf pt psz) eqn:Hv.
      2:{ rewrite decode_invalid_run in H by exact Hv. discriminate. }
      split; [reflexivity|].
      destruct (decode_cases w ct csz pt psz)
        as [Hc|[Hc|[(Hfin & Hgrow & _)|(n & s1 & c & _ & Hc)]]];
        try (rewrite Hc in H; discriminate).
      split; assumption.
    + intros (Hv & Hfin & Hgrow).
      apply andb_true_iff in Hv. destruct Hv as [Hin Hout].
      destruct (SSL_read (decode_entry w ct csz) pt
                  (to_int (to_size_t (to_int psz)))) as [n s1] eqn:Hstep.
      rewrite (decode_run w _ _ _ _ n s1 Hin Hout Hfin Hstep).
      cbv zeta. cbn [snd] in Hgrow.
      replace (_ <=? _) with false by (symmetry; apply Z.leb_gt; lia).
      reflexivity.
Qed.

End CodecExtras.

Section CodecFootprint.

Context {S : Type} {E : Engine S}.

(** X8.  A [handshake] call that returns has either left everything as it
    was, or attached both views, cleared the error queue, called the
    handshake primitive once and released the views, the output view
    first.  It never calls the read or write primitive, and BIO slots that
    were empty before the call are empty after it. *)
Theorem handshake_footprint
    (w w' : World S) (from_peer fsz to_peer tsz : Z) (r : HandshakeResult.t) :
  handshake from_peer fsz to_peer tsz w = Returns (r, w') ->
  (trace w' = trace w
   \/ trace w' =
        trace w ++
          [EvSetConstView from_peer fsz; EvSetMutableView to_peer tsz;
           EvClearError; EvDoHandshake;
           EvUnsetMutableView; EvUnsetConstView])
  /\ (rbio (_ssl (this w)) = None -> rbio (_ssl (this w')) = None)
  /\ (wbio (_ssl (this w)) = None -> wbio (_ssl (this w')) = None)
  /\ _mode (this w') = _mode (this w).
Proof.
  intros Hrun.
  destruct (handshake_cases w from_peer fsz to_peer tsz)
    as [Hc|[[_ Hc]|[(_ & _ & Hc)|(r0 & s1 & Hc & _)]]];
    rewrite Hc in Hrun; inversion Hrun; subst; cbn; auto.
Qed.

(** X9.  An [encode] call that returns has either left everything as it
    was, or attached and released the output view around at most one call
    of the write primitive, which gets the plaintext pointer and the
    clamped length.  It never attaches the input view and never calls the
    handshake or read primitive; an output slot that was empty before the
    call is empty after it. *)
Theorem encode_footprint
    (Max : Z) (w w' : World S) (pt psz ct csz : Z) (r : EncodeResult.t) :
  encode Max pt psz ct csz w = Returns (r, w') ->
  (trace w' = trace w
   \/ trace w' = trace w ++ [EvSetMutableView ct csz; EvUnsetMutableView]
   \/ trace w' =
        trace w ++
          [EvSetMutableView ct csz; EvClearError;
           EvWrite pt (to_int (Z.min psz Max)); EvUnsetMutableView])
  /\ (wbio (_ssl (this w)) = None -> wbio (_ssl (this w')) = None)
  /\ _mode (this w') = _mode (this w).
Proof.
  intros Hrun.
  destruct (encode_cases Max w pt psz ct csz)
    as [Hc|[Hc|[[_ Hc]|(n & s1 & _ & _ & Hc)]]];
    rewrite Hc in Hrun; inversion Hrun; subst; cbn; auto.
Qed.

(** X10.  A [decode] call that returns has either left everything as it
    was, or attached and released the input view around exactly one call
    of the read primitive: one call decodes what one engine read yields.
    It never attaches the output view and never calls the handshake or
    write primitive; an input slot that was empty before the call is empty
    after it. *)
Theorem decode_footprint
    (w w' : World S) (ct csz pt psz : Z) (r : DecodeResult.t) :
  decode ct csz pt psz w = Returns (r, w') ->
  (trace w' = trace w
   \/ trace w' =
        trace w ++
          [EvSetConstView ct csz; EvClearError;
           EvRead pt (to_int (to_size_t (to_int psz))); EvUnsetConstView])
  /\ (rbio (_ssl (this w)) = None -> rbio (_ssl (this w')) = None)
  /\ _mode (this w') = _mode (this w).
Proof.
  intros Hrun.
  destruct (decode_cases w ct csz pt psz)
    as [Hc|[Hc|[(_ & _ & Hc)|(n & s1 & c & _ & Hc)]]];
    rewrite Hc in Hrun; inversion Hrun; subst; cbn; auto.
Qed.

(** X11.  Once a [handshake] call has returned Done, and the engine's
    handshake-complete query does not depend on the attached views, the
    engine reports the handshake complete on the object the call left, and
    the [handshake] calls that follow it directly (any number of them,
    with valid buffers, and no [encode] or [decode] in between) each
    return [{0, 0, Done}] and leave everything as it was. *)
Theorem handshake_done_is_final
    (w w' : World S) (from_peer fsz to_peer tsz : Z) (r : HandshakeResult.t)
    (calls : list (Z * Z * Z * Z)) :
  finished_ignores_views ->
  handshake from_peer fsz to_peer tsz w = Returns (r, w') ->
  HandshakeResult.state r = HandshakeResult.Done ->
  Forall valid_call calls ->
  SSL_is_init_finished (_ssl (this w')) = true
  /\ handshake_each calls w'
     = Returns
         (List.map
            (fun _ => HandshakeResult.mk 0 0 HandshakeResult.Done) calls,
          w').
Proof.
  intros Hlaw Hrun Hdone Hvalid.
  pose proof (handshake_done_leaves_finished w w' _ _ _ _ r Hlaw Hrun Hdone)
    as Hfin.
  split; [exact Hfin|].
  induction Hvalid as [|call calls Hcall _ IH]; cbn [handshake_each List.map].
  - reflexivity.
  - destruct call as [[[a asz] b] bsz]. destruct Hcall as [Hin Hout].
    unfold bind at 1.
    rewrite (handshake_done_run w' a asz b bsz Hin Hout Hfin).
    unfold bind at 1. rewrite IH. reflexivity.
Qed.

(** X12.  Once a [handshake] call has returned Done (the engine's
    handshake-complete query not depending on the attached views), a
    following [encode] of a non-empty plaintext and a following [decode]
    no longer take the early Failed exit: each hands its buffer to the
    engine, with the clamped plaintext length and with the declared
    plaintext capacity. *)
Theorem codec_reaches_engine_after_done
    (Max : Z) (w w' : World S) (from_peer fsz to_peer tsz : Z)
    (r : HandshakeResult.t) (src src_size dst dst_size : Z) :
  finished_ignores_views ->
  handshake from_peer fsz to_peer tsz w = Returns (r, w') ->
  HandshakeResult.state r = HandshakeResult.Done ->
  verify_buf src src_size = true ->
  verify_buf dst dst_size = true ->
  0 < src_size ->
  is_size_t dst_size ->
  is_size_t Max ->
  (exists (r2 : EncodeResult.t) (w2 : World S),
     encode Max src src_size dst dst_size w' = Returns (r2, w2)
     /\ trace w2 =
          trace w' ++
            [EvSetMutableView dst dst_size; EvClearError;
             EvWrite src (Z.min src_size Max); EvUnsetMutableView])
  /\ (decode src src_size dst dst_size w' = Aborts AssertInputPendingNotGrown
      \/ exists (r2 : DecodeResult.t) (w2 : World S),
           decode src src_size dst dst_size w' = Returns (r2, w2)
           /\ trace w2 =
                trace w' ++
                  [EvSetConstView src src_size; EvClearError;
                   EvRead dst dst_size; EvUnsetConstView]).
Proof.
  intros Hlaw Hrun Hdone Hin Hout Hpos Hdst HMax.
  pose proof (handshake_done_leaves_finished w w' _ _ _ _ r Hlaw Hrun Hdone)
    as Hfin.
  unfold is_size_t in *.
  pose proof (proj1 (verify_buf_spec _ _) Hin) as [Hlt _].
  unfold INT32_MAX in Hlt.
  split.
  - destruct (SSL_write (encode_entry w' dst dst_size) src
                (to_int (Z.min src_size Max))) as [n s1] eqn:Hstep.
    rewrite (encode_run Max w' _ _ _ _ n s1 Hin Hout Hfin
               ltac:(lia) Hstep).
    eexists. eexists. split; [reflexivity|].
    cbn. rewrite to_int_id by lia. reflexivity.
  - destruct (SSL_read (decode_entry w' src src_size) dst
                (to_int (to_size_t (to_int dst_size)))) as [n s1] eqn:Hstep.
    rewrite (decode_run w' _ _ _ _ n s1 Hin Hout Hfin Hstep).
    cbv zeta. destruct (_ <=? _); [|left; reflexivity].
    right. eexists. eexists. split; [reflexivity|].
    cbn. rewrite (decode_read_size dst dst_size Hout) by lia. reflexivity.
Qed.

End CodecFootprint.

Section CodecResults.

Context {S : Type} {E : Engine S}.

(** X13.  A result of [decode] carries plaintext only with outcome OK: an
    OK result means that the handshake was complete and the read primitive
    returned a positive length, which is the [bytes_produced]; a
    NeedsMorePeerData or Failed result has [bytes_produced = 0]. *)
Theorem decode_reports_plaintext_only_with_ok
    (w w' : World S) (ct csz pt psz : Z) (r : DecodeResult.t) :
  decode ct csz pt psz w = Returns (r, w') ->
  (DecodeResult.state r = DecodeResult.OK ->
   SSL_is_init_finished (_ssl (this w)) = true
   /\ 0 < fst (SSL_read (decode_entry w ct csz) pt
                 (to_int (to_size_t (to_int psz))))
   /\ DecodeResult.bytes_produced r =
        to_size_t (fst (SSL_read (decode_entry w ct csz) pt
                          (to_int (to_size_t (to_int psz))))))
  /\ (DecodeResult.state r <> DecodeResult.OK ->
      DecodeResult.bytes_produced r = 0).
Proof.
  intros Hrun.
  destruct (verify_buf ct csz && verify_buf pt psz) eqn:Hv.
  2:{ rewrite decode_invalid_run in Hrun by exact Hv. discriminate. }
  apply andb_true_iff in Hv. destruct Hv as [Hin Hout].
  destruct (SSL_is_init_finished (_ssl (this w))) eqn:Hfin.
  2:{ rewrite (decode_early_run w _ _ _ _ Hin Hout Hfin) in Hrun.
      inversion Hrun. subst. cbn. split; [discriminate|reflexivity]. }
  destruct (SSL_read (decode_entry w ct csz) pt
              (to_int (to_size_t (to_int psz)))) as [n s1] eqn:Hstep.
  rewrite (decode_run w _ _ _ _ n s1 Hin Hout Hfin Hstep) in Hrun.
  cbv zeta in Hrun. cbn [fst].
  destruct (_ <=? _); [|discriminate].
  inversion Hrun. subst r w'. clear Hrun.
  destruct (0 <? n) eqn:Hpos; cbn.
  - apply Z.ltb_lt in Hpos. split; [auto|congruence].
  - destruct (_ =? SSL_ERROR_WANT_READ); cbn;
      (split; [discriminate|reflexivity]).
Qed.

End CodecResults.

(** X14.  [ssl_error_to_str] names every error code that the headers in
    use define, with a name that belongs to no other code, and gives
    ["Unknown SSL error code"] for exactly the other values. *)
Theorem ssl_error_to_str_identifies_code (version a b : Z) :
  (ssl_error_to_str version a = "Unknown SSL error code"%string
   <-> known_ssl_error version a = false)
  /\ (known_ssl_error version a = true ->
      ssl_error_to_str version a = ssl_error_to_str version b -> a = b).
Proof.
  assert (Hcase : forall x : Z,
             x = 0 \/ x = 1 \/ x = 2 \/ x = 3 \/ x = 4 \/ x = 5 \/ x = 6
             \/ x = 7 \/ x = 8 \/ x = 9 \/ x = 10 \/ x = 11
             \/ (x < 0 \/ 11 < x)) by (intros x; lia).
  assert (Hout : forall x : Z, x < 0 \/ 11 < x ->
             ssl_error_to_str version x = "Unknown SSL error code"%string
             /\ known_ssl_error version x = false).
  { intros x Hx. unfold ssl_error_to_str, known_ssl_error,
      SSL_ERROR_NONE, SSL_ERROR_ZERO_RETURN, SSL_ERROR_WANT_READ,
      SSL_ERROR_WANT_WRITE, SSL_ERROR_WANT_CONNECT, SSL_ERROR_WANT_ACCEPT,
      SSL_ERROR_WANT_X509_LOOKUP, SSL_ERROR_WANT_ASYNC,
      SSL_ERROR_WANT_ASYNC_JOB, SSL_ERROR_WANT_CLIENT_HELLO_CB,
      SSL_ERROR_SYSCALL, SSL_ERROR_SSL.
    repeat match goal with
           | |- context [x =? ?k] =>
               replace (x =? k) with false
                 by (symmetry; apply Z.eqb_neq; lia)
           end.
    rewrite !andb_false_r. cbn.
    destruct (0 <=? x) eqn:H0; destruct (x <=? 8) eqn:H8;
      destruct (9 <=? x) eqn:H9; destruct (x <=? 10) eqn:H10;
      rewrite ?andb_false_r, ?andb_true_r; cbn;
      try (split; reflexivity);
      exfalso;
      rewrite ?Z.leb_le, ?Z.leb_gt in *; lia. }
  destruct (269484032 <=? version) eqn:Hv1;
    destruct (269488128 <=? version) eqn:Hv2;
    (destruct (Hcase a) as [Ha|[Ha|[Ha|[Ha|[Ha|[Ha|[Ha|[Ha|[Ha|[Ha|[Ha|[Ha|Ha]]]]]]]]]]]];
     [subst a; unfold ssl_error_to_str at 1 2, known_ssl_error;
      rewrite Hv1, Hv2; cbn;
      (split; [split; intros Hd; first [discriminate Hd | reflexivity]|]);
      try (intros Hk; discriminate Hk);
      intros _;
      (destruct (Hcase b) as [Hb|[Hb|[Hb|[Hb|[Hb|[Hb|[Hb|[Hb|[Hb|[Hb|[Hb|[Hb|Hb]]]]]]]]]]]];
       [subst b; unfold ssl_error_to_str; rewrite Hv1, Hv2; cbn;
        intros Heq; first [reflexivity | discriminate Heq] ..
       |destruct (Hout b Hb) as [Hs _]; rewrite Hs;
        intros Heq; discriminate Heq]) ..
     |destruct (Hout a Ha) as [Hs Hk]; rewrite Hs, Hk;
      split; [split; reflexivity | intros Hd; discriminate Hd]]).
Qed.

Module CodecScenarios.

Import Mock.

Lemma mock_finished_ignores_views : @finished_ignores_views Script engine.
Proof.
  intros s r o. reflexivity.
Qed.

Lemma handshake_completes_witness :
  exists w' : World Script,
    handshake 1000 74 2000 4096 (world Server server_finished) =
      Returns (HandshakeResult.mk 74 0 HandshakeResult.Done, w').
Proof.
  eexists.
  refine (handshake_completes (world Server server_finished)
            1000 74 2000 4096
            (fst (SSL_do_handshake
                    (handshake_entry (world Server server_finished)
                       1000 74 2000 4096)))
            (snd (SSL_do_handshake
                    (handshake_entry (world Server server_finished)
                       1000 74 2000 4096)))
            _ _ _ _ _ _ _);
    first [reflexivity | now vm_compute].
Defined.

Lemma encode_succeeds_iff_whole_span_accepted_witness :
  exists (r : EncodeResult.t) (w' : World Script),
    encode 16384 1000 5 2000 4096 (world Client write_3) = Returns (r, w')
    /\ r = EncodeResult.mk 0 0 true.
Proof.
  destruct (encode_succeeds_iff_whole_span_accepted 16384
              (world Client write_3) 1000 5 2000 4096
              (fst (SSL_write (encode_entry (world Client write_3) 2000 4096)
                      1000 5))
              (snd (SSL_write (encode_entry (world Client write_3) 2000 4096)
                      1000 5)))
    as (r & w' & Hrun & _ & Hfail & _);
    try first [reflexivity | now vm_compute].
  exists r, w'. split; [exact Hrun|]. apply Hfail. now vm_compute.
Defined.

Lemma encode_of_empty_plaintext_is_a_poll_witness :
  exists w' : World Script,
    encode 16384 0 0 2000 4096 (world Client write_5) =
      Returns (EncodeResult.mk 0 0 false, w')
    /\ trace w' = [EvSetMutableView 2000 4096; EvUnsetMutableView].
Proof.
  eexists. split.
  - apply (encode_of_empty_plaintext_is_a_poll 16384 (world Client write_5)
             0 2000 4096); reflexivity.
  - reflexivity.
Defined.

Lemma encode_consumes_at_most_one_frame_witness :
  exists (r : EncodeResult.t) (w' : World Script),
    encode 16384 1000 5 2000 4096 (world Client write_5) = Returns (r, w')
    /\ 0 <= EncodeResult.bytes_consumed r <= Z.min 5 16384.
Proof.
  eexists. eexists. split; [reflexivity|].
  eapply encode_consumes_at_most_one_frame
    with (Max := 16384) (w := world Client write_5)
         (pt := 1000) (psz := 5) (ct := 2000) (csz := 4096);
    first [reflexivity | now vm_compute].
Defined.

Lemma handshake_footprint_witness :
  exists (r : HandshakeResult.t) (w' : World Script),
    handshake 1000 74 2000 4096 (world Server server_finished)
      = Returns (r, w')
    /\ rbio (_ssl (this w')) = None
    /\ wbio (_ssl (this w')) = None.
Proof.
  eexists. eexists. split; [reflexivity|].
  edestruct handshake_footprint
    with (w := world Server server_finished)
         (from_peer := 1000) (fsz := 74) (to_peer := 2000) (tsz := 4096)
    as (_ & Hr & Hw & _); [reflexivity|].
  split; [apply Hr|apply Hw]; reflexivity.
Defined.

Lemma encode_footprint_witness :
  exists (r : EncodeResult.t) (w' : World Script),
    encode 16384 1000 5 2000 4096 (world Client write_5) = Returns (r, w')
    /\ wbio (_ssl (this w')) = None.
Proof.
  eexists. eexists. split; [reflexivity|].
  edestruct encode_footprint
    with (Max := 16384) (w := world Client write_5)
         (pt := 1000) (psz := 5) (ct := 2000) (csz := 4096)
    as (_ & Hw & _); [reflexivity|].
  apply Hw. reflexivity.
Defined.

Lemma decode_footprint_witness :
  exists (r : DecodeResult.t) (w' : World Script),
    decode 1000 27 2000 4096 (world Client read_5) = Returns (r, w')
    /\ rbio (_ssl (this w')) = None.
Proof.
  eexists. eexists. split; [reflexivity|].
  edestruct decode_footprint
    with (w := world Client read_5)
         (ct := 1000) (csz := 27) (pt := 2000) (psz := 4096)
    as (_ & Hr & _); [reflexivity|].
  apply Hr. reflexivity.
Defined.

Lemma handshake_done_is_final_witness :
  exists (r : HandshakeResult.t) (w' : World Script),
    handshake 1000 74 2000 4096 (world Server server_finished)
      = Returns (r, w')
    /\ handshake_each [(0, 0, 2000, 4096); (1000, 74, 3000, 512)] w'
       = Returns
           ([HandshakeResult.mk 0 0 HandshakeResult.Done;
             HandshakeResult.mk 0 0 HandshakeResult.Done], w').
Proof.
  eexists. eexists. split; [reflexivity|].
  eapply handshake_done_is_final
    with (w := world Server server_finished)
         (from_peer := 1000) (fsz := 74) (to_peer := 2000) (tsz := 4096);
    first [exact mock_finished_ignores_views | reflexivity
          | repeat constructor].
Defined.

Lemma codec_reaches_engine_after_done_witness :
  exists (r : HandshakeResult.t) (w' : World Script)
         (r2 : EncodeResult.t) (w2 : World Script),
    handshake 1000 74 2000 4096 (world Server server_finished)
      = Returns (r, w')
    /\ encode 16384 1000 5 2000 4096 w' = Returns (r2, w2)
    /\ trace w2 =
         trace w' ++
           [EvSetMutableView 2000 4096; EvClearError; EvWrite 1000 5;
            EvUnsetMutableView].
Proof.
  assert (Hshake : exists (r : HandshakeResult.t) (w' : World Script),
             handshake 1000 74 2000 4096 (world Server server_finished)
               = Returns (r, w')
             /\ HandshakeResult.state r = HandshakeResult.Done)
    by (eexists; eexists; split; reflexivity).
  destruct Hshake as (r & w' & Hrun & Hdone).
  assert (Hsrc : verify_buf 1000 5 = true) by reflexivity.
  assert (Hdst : verify_buf 2000 4096 = true) by reflexivity.
  assert (Hpos : 0 < 5) by reflexivity.
  assert (Hcap : is_size_t 4096) by (unfold is_size_t; lia).
  assert (Hmax : is_size_t 16384) by (unfold is_size_t; lia).
  destruct (codec_reaches_engine_after_done 16384
              (world Server server_finished) w' 1000 74 2000 4096 r
              1000 5 2000 4096 mock_finished_ignores_views Hrun Hdone
              Hsrc Hdst Hpos Hcap Hmax)
    as [(r2 & w2 & Hr2 & Htrace) _].
  exists r, w', r2, w2.
  split; [exact Hrun|]. split; [exact Hr2|exact Htrace].
Defined.

Lemma decode_reports_plaintext_only_with_ok_witness :
  exists (r : DecodeResult.t) (w' : World Script),
    decode 1000 10 2000 4096 (world Client read_partial) = Returns (r, w')
    /\ DecodeResult.bytes_produced r = 0.
Proof.
  eexists. eexists. split; [reflexivity|].
  eapply decode_reports_plaintext_only_with_ok
    with (w := world Client read_partial)
         (ct := 1000) (csz := 10) (pt := 2000) (psz := 4096);
    [reflexivity|discriminate].
Defined.

End CodecScenarios.

(** * Reference counts *)

Module UniqueStoreEntryFacts.

Import UniqueStoreEntryBase.

Lemma count_after_incs (n : nat) (e : t) :
  in_range e ->
  _ref_count (Nat.iter n inc_ref_count e)
  = (_ref_count e + Z.of_nat n) mod 2 ^ 32.
Proof.
  unfold in_range. intros He. induction n as [|n IH].
  - cbn [Nat.iter]. rewrite Z.add_0_r. symmetry. now apply Z.mod_small.
  - rewrite Nat.iter_succ. cbn [inc_ref_count _ref_count]. rewrite IH.
    rewrite Zplus_mod_idemp_l. f_equal. lia.
Qed.

Lemma count_after_decs (n : nat) (e : t) :
  in_range e ->
  _ref_count (Nat.iter n dec_ref_count e)
  = (_ref_count e - Z.of_nat n) mod 2 ^ 32.
Proof.
  unfold in_range. intros He. induction n as [|n IH].
  - cbn [Nat.iter]. rewrite Z.sub_0_r. symmetry. now apply Z.mod_small.
  - rewrite Nat.iter_succ. cbn [dec_ref_count _ref_count]. rewrite IH.
    rewrite Zminus_mod_idemp_l. f_equal. lia.
Qed.

(** X15.  On a reference count in the [uint32_t] range, an increment
    followed by a decrement, and a decrement followed by an increment,
    give the count back, also across the wrap-around between 2^32 - 1 and
    0; both operations stay in the range. *)
Theorem inc_and_dec_are_inverse (e : t) :
  in_range e ->
  dec_ref_count (inc_ref_count e) = e
  /\ inc_ref_count (dec_ref_count e) = e
  /\ in_range (inc_ref_count e)
  /\ in_range (dec_ref_count e).
Proof.
  destruct e as [c]. unfold in_range, inc_ref_count, dec_ref_count.
  cbn [_ref_count]. intros Hc.
  repeat split; try (apply Z.mod_pos_bound; lia); f_equal.
  - rewrite Zminus_mod_idemp_l.
    replace (c + 1 - 1) with c by lia. now apply Z.mod_small.
  - rewrite Zplus_mod_idemp_l.
    replace (c - 1 + 1) with c by lia. now apply Z.mod_small.
Qed.

(** X16.  After [n] increments and then [m] decrements of a new entry the
    reference count is [(n - m) mod 2^32]: the count neither saturates at
    2^32 - 1 nor stops at 0, and as many decrements as increments bring it
    back to 0. *)
Theorem count_after_incs_and_decs (n m : nat) :
  get_ref_count (Nat.iter m dec_ref_count (Nat.iter n inc_ref_count new))
  = (Z.of_nat n - Z.of_nat m) mod 2 ^ 32
  /\ get_ref_count
       (Nat.iter n dec_ref_count (Nat.iter n inc_ref_count new)) = 0.
Proof.
  assert (Hnew : in_range new) by (unfold in_range; cbn; lia).
  assert (Hinc : forall k, in_range (Nat.iter k inc_ref_count new)).
  { intros k. unfold in_range. rewrite count_after_incs by exact Hnew.
    apply Z.mod_pos_bound. lia. }
  assert (Hgen : forall k j,
             get_ref_count
               (Nat.iter j dec_ref_count (Nat.iter k inc_ref_count new))
             = (Z.of_nat k - Z.of_nat j) mod 2 ^ 32).
  { intros k j. unfold get_ref_count.
    rewrite count_after_decs by apply Hinc.
    rewrite count_after_incs by exact Hnew. cbn [_ref_count new].
    rewrite Zminus_mod_idemp_l. f_equal. }
  split; [apply Hgen|].
  rewrite Hgen. rewrite Z.sub_diag. reflexivity.
Qed.

Lemma inc_and_dec_are_inverse_witness :
  dec_ref_count (inc_ref_count (mk 4294967295)) = mk 4294967295
  /\ inc_ref_count (dec_ref_count (mk 0)) = mk 0.
Proof.
  split.
  - apply (inc_and_dec_are_inverse (mk 4294967295)). now vm_compute.
  - apply (inc_and_dec_are_inverse (mk 0)). now vm_compute.
Defined.

End UniqueStoreEntryFacts.

(** * The sparse-address map *)

Module SimpleSparseMapFacts.

Import SimpleSparseMap.

Section Facts.

Context {T : Type} (K : LabelKind T).

Lemma hash_fold_wraps_once (addr : list T) (h0 : Z) :
  fold_left (fun h label => (31 * h + hash_label K label) mod 2 ^ 64)
    addr (h0 mod 2 ^ 64)
  = fold_left (fun h label => 31 * h + hash_label K label) addr h0
    mod 2 ^ 64.
Proof.
  revert h0. induction addr as [|x addr IH]; intros h0; cbn [fold_left].
  - reflexivity.
  - rewrite <- IH. f_equal.
    rewrite Zplus_mod, Zmult_mod, Zmod_mod.
    rewrite <- Zmult_mod, <- Zplus_mod. reflexivity.
Qed.

Lemma hash_addr_snoc (addr : list T) (x : T) :
  hash_addr K (addr ++ [x])
  = (31 * hash_addr K addr + hash_label K x) mod 2 ^ 64.
Proof.
  unfold hash_addr. rewrite fold_left_app. reflexivity.
Qed.

(** X17.  [hash_addr] is the polynomial in 31 over the label hashes,
    first label in the highest power, reduced modulo 2^64 once: wrapping
    at every step gives the same 64-bit value.  The hash of the empty
    address is 0. *)
Theorem hash_addr_is_polynomial_mod_2_64 (addr : list T) :
  hash_addr K addr
  = fold_left (fun h label => 31 * h + hash_label K label) addr 0
    mod 2 ^ 64
  /\ 0 <= hash_addr K addr < 2 ^ 64
  /\ hash_addr K [] = 0.
Proof.
  assert (Heq : hash_addr K addr
                = fold_left (fun h label => 31 * h + hash_label K label)
                    addr 0 mod 2 ^ 64).
  { unfold hash_addr. rewrite <- hash_fold_wraps_once. reflexivity. }
  split; [exact Heq|]. split; [|reflexivity].
  rewrite Heq. apply Z.mod_pos_bound. lia.
Qed.

Lemma add_mapping_fold (addr : list T) (ls : list HashedLabel) (h : Z) :
  fold_left
    (fun (acc : list HashedLabel * Z) label =>
       let ls := fst acc ++ [emplace K label] in
       (ls, (31 * snd acc + hash (List.last ls HashedLabel_default))
              mod 2 ^ 64))
    addr (ls, h)
  = (fold_left (fun ls label => ls ++ [emplace K label]) addr ls,
     fold_left (fun h label => (31 * h + hash_label K label) mod 2 ^ 64)
       addr h).
Proof.
  revert ls h. induction addr as [|x addr IH]; intros ls h; cbn [fold_left].
  - reflexivity.
  - cbn [fst snd]. rewrite List.last_last, emplace_keeps_hash. apply IH.
Qed.

Lemma emplaced_labels (addr : list T) (ls : list HashedLabel) :
  fold_left (fun ls label => ls ++ [emplace K label]) addr ls
  = ls ++ List.map (emplace K) addr.
Proof.
  revert ls. induction addr as [|x addr IH]; intros ls; cbn [fold_left List.map].
  - now rewrite app_nil_r.
  - rewrite IH, <- app_assoc. reflexivity.
Qed.

(** X18.  The two overloads of [add_mapping] agree: adding an address
    without a hash is adding it with [hash_addr] of the address, although
    the hash is then built from the labels as stored. *)
Theorem add_mapping_uses_hash_addr (addr : list T) (m : t) :
  add_mapping K addr m = add_mapping_with_hash K addr (hash_addr K addr) m.
Proof.
  unfold add_mapping, add_mapping_with_hash, hash_addr.
  rewrite add_mapping_fold. reflexivity.
Qed.

Lemma add_mapping_unfold (addr : list T) (m : t) :
  add_mapping K addr m
  = mk (_num_dims m) (_labels m ++ List.map (emplace K) addr)
      (map_insert
         (mkKey (to_uint32 (Z.of_nat (List.length (_labels m))))
            (hash_addr K addr),
          to_uint32 (size m))
         (_map m)).
Proof.
  unfold add_mapping. rewrite add_mapping_fold, emplaced_labels.
  reflexivity.
Qed.

Lemma values_below_npos (m : t) (h : Z) :
  values_in_range m ->
  lookup_hash h m = npos <-> map_find h (_map m) = None.
Proof.
  unfold values_in_range, lookup_hash, map_find. intros Hwf.
  destruct (List.find _ (_map m)) as [e|] eqn:Hfind.
  - split; [|discriminate]. intros Heq. exfalso.
    apply find_some in Hfind. destruct Hfind as [Hin _].
    rewrite Forall_forall in Hwf. specialize (Hwf e Hin).
    unfold npos in Heq. lia.
  - split; reflexivity.
Qed.

Lemma map_find_insert_new (h : Z) (s v : Z) (m : MapType) :
  map_find h m = None ->
  map_insert (mkKey s h, v) m = m ++ [(mkKey s h, v)]
  /\ map_find h (m ++ [(mkKey s h, v)]) = Some (mkKey s h, v).
Proof.
  unfold map_find, map_insert, Equal, Equal_hash. cbn [fst key_hash].
  intros Hnone. rewrite Hnone. split; [reflexivity|].
  induction m as [|e m IH]; cbn [app List.find] in *.
  - cbn. now rewrite Z.eqb_refl.
  - destruct (key_hash (fst e) =? h); [discriminate|]. now apply IH.
Qed.

Lemma map_find_other (h h' : Z) (s v : Z) (m : MapType) :
  h' <> h ->
  map_find h' (m ++ [(mkKey s h, v)]) = map_find h' m.
Proof.
  unfold map_find, Equal_hash. intros Hne.
  induction m as [|e m IH]; cbn [app List.find].
  - cbn. replace (h =? h') with false
      by (symmetry; apply Z.eqb_neq; congruence).
    reflexivity.
  - destruct (key_hash (fst e) =? h'); [reflexivity|exact IH].
Qed.

(** X19.  Insert and look up.  When [lookup] does not find an address in
    a map whose values are in the [uint32_t] range, [add_mapping] binds it
    to the size of the map before the call (as a [uint32_t]): [lookup]
    then gives that value, the size has grown by one, and the lookup of
    every other hash is as before. *)
Theorem lookup_after_add_mapping (addr : list T) (m : t) :
  values_in_range m ->
  lookup K addr m = npos ->
  lookup K addr (add_mapping K addr m) = to_uint32 (size m)
  /\ size (add_mapping K addr m) = size m + 1
  /\ (forall h : Z,
        h <> hash_addr K addr ->
        lookup_hash h (add_mapping K addr m) = lookup_hash h m)
  /\ values_in_range (add_mapping K addr m).
Proof.
  intros Hwf Hnew. unfold lookup in *.
  apply (values_below_npos m _ Hwf) in Hnew.
  rewrite add_mapping_unfold.
  destruct (map_find_insert_new (hash_addr K addr)
              (to_uint32 (Z.of_nat (List.length (_labels m))))
              (to_uint32 (size m)) (_map m) Hnew) as [Hins Hfind].
  rewrite Hins. repeat split.
  - unfold lookup_hash. cbn [_map]. now rewrite Hfind.
  - unfold size, map_size. cbn [_map]. rewrite length_app.
    cbn [List.length]. lia.
  - intros h Hne. unfold lookup_hash. cbn [_map].
    now rewrite map_find_other.
  - unfold values_in_range in *. cbn [_map].
    apply Forall_app. split; [exact Hwf|].
    constructor; [|constructor]. cbn [snd]. unfold to_uint32.
    apply Z.mod_pos_bound. lia.
Qed.

(** *** Maps built by [add_mapping] alone *)

Lemma build_snoc (nd ex : Z) (addrs : list (list T)) (a : list T) :
  build K nd ex (addrs ++ [a]) = add_mapping K a (build K nd ex addrs).
Proof.
  unfold build. rewrite fold_left_app. reflexivity.
Qed.

Lemma find_none_when_all_false {A : Type} (f : A -> bool) (l : list A) :
  (forall x, In x l -> f x = false) -> List.find f l = None.
Proof.
  intros Hall. destruct (List.find f l) as [x|] eqn:Hfind; [|reflexivity].
  apply find_some in Hfind. destruct Hfind as [Hin Hx].
  rewrite (Hall x Hin) in Hx. discriminate.
Qed.

Lemma built_entry_hash (nd : Z) (addrs : list (list T)) (m : t)
    (e : Key * Z) :
  built K nd addrs m -> In e (_map m) ->
  exists (k : nat) (a : list T),
    nth_error addrs k = Some a
    /\ nth_error (_map m) k = Some e
    /\ key_hash (fst e) = hash_addr K a
    /\ snd e = Z.of_nat k.
Proof.
  intros (_ & Hlen & _ & Hent) Hin.
  apply In_nth_error in Hin. destruct Hin as [k Hk].
  assert (Hlt : (k < List.length addrs)%nat).
  { rewrite <- Hlen. apply nth_error_Some. congruence. }
  destruct (nth_error addrs k) as [a|] eqn:Ha;
    [|apply nth_error_None in Ha; lia].
  exists k, a. split; [exact Ha|]. split; [exact Hk|].
  rewrite (Hent k a Ha) in Hk. inversion Hk. split; reflexivity.
Qed.

Lemma built_find_absent (nd : Z) (addrs : list (list T)) (m : t) (h : Z) :
  built K nd addrs m ->
  ~ In h (List.map (hash_addr K) addrs) ->
  map_find h (_map m) = None.
Proof.
  intros Hb Hnot. unfold map_find. apply find_none_when_all_false.
  intros e Hin. unfold Equal_hash. apply Z.eqb_neq. intros Heq.
  destruct (built_entry_hash nd addrs m e Hb Hin) as (k & a & Ha & _ & Hh & _).
  apply Hnot. rewrite <- Heq, Hh. apply in_map.
  eapply nth_error_In. exact Ha.
Qed.

Lemma built_find_present (nd : Z) (addrs : list (list T)) (m : t)
    (k : nat) (a : list T) :
  built K nd addrs m ->
  NoDup (List.map (hash_addr K) addrs) ->
  nth_error addrs k = Some a ->
  map_find (hash_addr K a) (_map m)
  = Some (mkKey
            (to_uint32
               (Z.of_nat (List.length (List.concat (firstn k addrs)))))
            (hash_addr K a),
          Z.of_nat k).
Proof.
  intros Hb Hnd Ha.
  pose proof Hb as (_ & Hlen & _ & Hent).
  pose proof (Hent k a Ha) as Hk.
  unfold map_find.
  destruct (List.find _ (_map m)) as [e|] eqn:Hfind.
  - apply find_some in Hfind. destruct Hfind as [Hin He].
    unfold Equal_hash in He. apply Z.eqb_eq in He.
    destruct (built_entry_hash nd addrs m e Hb Hin)
      as (j & b & Hb' & Hj & Hh & _).
    assert (Hjk : j = k).
    { rewrite NoDup_nth_error in Hnd. apply Hnd.
      - rewrite length_map. apply nth_error_Some. congruence.
      - rewrite (map_nth_error _ _ _ Hb'), (map_nth_error _ _ _ Ha).
        congruence. }
    subst j. congruence.
  - exfalso. apply nth_error_In in Hk.
    apply (find_none _ _ Hfind) in Hk.
    unfold Equal_hash in Hk. cbn [fst key_hash] in Hk.
    rewrite Z.eqb_refl in Hk. discriminate.
Qed.

Lemma build_is_built (nd ex : Z) (addrs : list (list T)) :
  NoDup (List.map (hash_addr K) addrs) ->
  Z.of_nat (List.length addrs) <= 2 ^ 32 ->
  built K nd addrs (build K nd ex addrs).
Proof.
  induction addrs as [|a addrs IH] using rev_ind; intros Hnd Hlen.
  - unfold build, built. cbn. repeat split.
    intros k a Hk. destruct k; discriminate.
  - rewrite length_app in Hlen. cbn [List.length] in Hlen.
    rewrite map_app in Hnd. cbn [List.map] in Hnd.
    assert (Hnd' : NoDup (List.map (hash_addr K) addrs))
      by (eapply NoDup_app_remove_r; exact Hnd).
    assert (Hfresh : ~ In (hash_addr K a) (List.map (hash_addr K) addrs)).
    { apply NoDup_remove_2 in Hnd. rewrite app_nil_r in Hnd. exact Hnd. }
    specialize (IH Hnd' ltac:(lia)).
    pose proof (built_find_absent nd addrs _ _ IH Hfresh) as Hnone.
    destruct IH as (Hdims & Hsize & Hlabels & Hent).
    rewrite build_snoc, add_mapping_unfold.
    destruct (map_find_insert_new (hash_addr K a)
                (to_uint32
                   (Z.of_nat (List.length (_labels (build K nd ex addrs)))))
                (to_uint32 (size (build K nd ex addrs)))
                (_map (build K nd ex addrs)) Hnone) as [Hins _].
    rewrite Hins. unfold built. cbn [_num_dims _map _labels].
    split; [exact Hdims|]. split.
    { rewrite !length_app. cbn [List.length]. lia. }
    split.
    { rewrite Hlabels, concat_app, map_app. cbn [List.concat].
      now rewrite app_nil_r. }
    intros k b Hk.
    destruct (Nat.lt_ge_cases k (List.length addrs)) as [Hlt|Hge].
    + rewrite nth_error_app1 in Hk by exact Hlt.
      rewrite nth_error_app1 by (rewrite Hsize; exact Hlt).
      rewrite (Hent k b Hk). rewrite firstn_app.
      replace (k - List.length addrs)%nat with 0%nat by lia.
      cbn [firstn]. now rewrite app_nil_r.
    + assert (Hk' : k = List.length addrs).
      { assert (k < List.length (addrs ++ [a]))%nat
          by (apply nth_error_Some; congruence).
        rewrite length_app in H. cbn [List.length] in H. lia. }
      subst k. rewrite nth_error_app2 in Hk by lia.
      rewrite Nat.sub_diag in Hk. cbn in Hk. inversion Hk. subst b.
      rewrite nth_error_app2 by lia. rewrite Hsize, Nat.sub_diag. cbn.
      rewrite firstn_app, firstn_all, Nat.sub_diag. cbn [firstn].
      rewrite app_nil_r. rewrite Hlabels, length_map.
      unfold size, map_size. rewrite Hsize.
      unfold to_uint32 at 2. rewrite Z.mod_small by lia. reflexivity.
Qed.

Lemma hash_addr_of_emplaced (a : list T) :
  hash_addr hashed_labels (List.map (emplace K) a) = hash_addr K a.
Proof.
  unfold hash_addr. generalize 0 as h.
  induction a as [|x a IH]; intros h; cbn [List.map fold_left].
  - reflexivity.
  - cbn [hash_label hashed_labels]. rewrite emplace_keeps_hash. apply IH.
Qed.

Lemma length_concat_uniform (n : nat) (l : list (list T)) :
  Forall (fun a => List.length a = n) l ->
  List.length (List.concat l) = (List.length l * n)%nat.
Proof.
  induction 1 as [|a l Ha _ IH]; cbn [List.concat List.length].
  - reflexivity.
  - rewrite length_app, IH, Ha. lia.
Qed.

(** X20.  A map built from a new one by [add_mapping] alone, over
    addresses whose hashes differ pairwise (at most 2^32 of them), numbers
    the addresses in the order they were added: its size is their number,
    [lookup] gives each address its position, starting at 0, and gives
    [npos] for every address whose hash is not among theirs. *)
Theorem build_numbers_addresses_in_order
    (nd ex : Z) (addrs : list (list T)) :
  NoDup (List.map (hash_addr K) addrs) ->
  Z.of_nat (List.length addrs) <= 2 ^ 32 ->
  size (build K nd ex addrs) = Z.of_nat (List.length addrs)
  /\ values_in_range (build K nd ex addrs)
  /\ (forall (k : nat) (a : list T),
        nth_error addrs k = Some a ->
        lookup K a (build K nd ex addrs) = Z.of_nat k)
  /\ (forall a : list T,
        ~ In (hash_addr K a) (List.map (hash_addr K) addrs) ->
        lookup K a (build K nd ex addrs) = npos).
Proof.
  intros Hnd Hlen.
  pose proof (build_is_built nd ex addrs Hnd Hlen) as Hb.
  pose proof Hb as (_ & Hsize & _ & _).
  split; [unfold size, map_size; now rewrite Hsize|]. split.
  { unfold values_in_range. apply Forall_forall. intros e Hin.
    destruct (built_entry_hash nd addrs _ e Hb Hin)
      as (k & a & Ha & _ & _ & Hv).
    assert (k < List.length addrs)%nat by (apply nth_error_Some; congruence).
    rewrite Hv. lia. }
  split.
  - intros k a Ha. unfold lookup, lookup_hash.
    now rewrite (built_find_present nd addrs _ k a Hb Hnd Ha).
  - intros a Hnot. unfold lookup, lookup_hash.
    now rewrite (built_find_absent nd addrs _ _ Hb Hnot).
Qed.

(** X21.  In such a map over addresses of [num_dims] labels each (the
    labels in total fewer than 2^32), the entry of the [k]-th address
    starts at label [k * num_dims]; [make_addr] of that start gives back
    the labels of the address as stored, and [hash_addr] of them is the
    hash under which the entry is kept. *)
Theorem build_keeps_labels_by_address
    (nd ex : Z) (addrs : list (list T)) (k : nat) (a : list T) :
  NoDup (List.map (hash_addr K) addrs) ->
  Forall (fun a => Z.of_nat (List.length a) = nd) addrs ->
  Z.of_nat (List.length addrs) <= 2 ^ 32 ->
  Z.of_nat (List.length addrs) * nd < 2 ^ 32 ->
  nth_error addrs k = Some a ->
  map_find (hash_addr K a) (_map (build K nd ex addrs))
    = Some (mkKey (Z.of_nat k * nd) (hash_addr K a), Z.of_nat k)
  /\ make_addr (build K nd ex addrs) (Z.of_nat k * nd)
     = List.map (emplace K) a
  /\ hash_addr hashed_labels
       (make_addr (build K nd ex addrs) (Z.of_nat k * nd))
     = hash_addr K a.
Proof.
  intros Hnd Huni Hlen Hfit Ha.
  pose proof (build_is_built nd ex addrs Hnd Hlen) as Hb.
  pose proof Hb as (Hdims & _ & Hlabels & _).
  assert (Hk : (k < List.length addrs)%nat)
    by (apply nth_error_Some; congruence).
  assert (Hna : Z.of_nat (List.length a) = nd).
  { rewrite Forall_forall in Huni. apply Huni.
    eapply nth_error_In. exact Ha. }
  assert (Huni' : Forall (fun b => List.length b = List.length a) addrs).
  { eapply Forall_impl; [|exact Huni]. cbn. intros b Hb'. lia. }
  destruct (nth_error_split addrs k Ha) as (l1 & l2 & Hsplit & Hl1).
  assert (Hfirst : firstn k addrs = l1).
  { rewrite Hsplit, <- Hl1. rewrite firstn_app, firstn_all, Nat.sub_diag.
    cbn [firstn]. now rewrite app_nil_r. }
  assert (Hpre : List.length (List.concat l1) = (k * List.length a)%nat).
  { rewrite (length_concat_uniform (List.length a)), Hl1; [reflexivity|].
    rewrite Hsplit in Huni'. apply Forall_app in Huni'. tauto. }
  assert (Hstart : Z.of_nat k * nd = Z.of_nat (k * List.length a)) by lia.
  assert (Hmake : make_addr (build K nd ex addrs) (Z.of_nat k * nd)
                  = List.map (emplace K) a).
  { unfold make_addr. rewrite Hdims, Hlabels.
    rewrite Hstart, Nat2Z.id, <- Hna, Nat2Z.id.
    rewrite Hsplit, concat_app. cbn [List.concat].
    rewrite <- Hpre, map_app, skipn_app, length_map.
    rewrite skipn_all2 by (rewrite length_map; lia).
    rewrite Nat.sub_diag. cbn [skipn app].
    rewrite map_app, firstn_app, length_map, Nat.sub_diag.
    cbn [firstn]. rewrite app_nil_r.
    rewrite <- (length_map (emplace K) a). apply firstn_all. }
  split; [|split].
  - rewrite (built_find_present nd addrs _ k a Hb Hnd Ha).
    rewrite Hfirst, Hpre. unfold to_uint32.
    rewrite Z.mod_small by nia. now rewrite Hstart.
  - exact Hmake.
  - rewrite Hmake. apply hash_addr_of_emplaced.
Qed.

End Facts.




Import SparseMapExample.

Lemma example_hashes_differ :
  NoDup (List.map (hash_addr by_length) [first_address; second_address]).
Proof.
  vm_compute. repeat constructor; cbn; intuition discriminate.
Qed.

Lemma lookup_after_add_mapping_witness :
  lookup by_length first_address
    (add_mapping by_length first_address (new 2 8)) = 0
  /\ size (add_mapping by_length first_address (new 2 8)) = 1.
Proof.
  destruct (lookup_after_add_mapping by_length first_address (new 2 8))
    as (Hlookup & Hsize & _).
  - constructor.
  - reflexivity.
  - split; [exact Hlookup|exact Hsize].
Defined.

Lemma build_numbers_addresses_in_order_witness :
  lookup by_length first_address
    (build by_length 2 8 [first_address; second_address]) = 0
  /\ lookup by_length second_address
       (build by_length 2 8 [first_address; second_address]) = 1
  /\ lookup by_length ["zzzzz"; "zzzzz"]%string
       (build by_length 2 8 [first_address; second_address]) = npos.
Proof.
  destruct (build_numbers_addresses_in_order by_length 2 8
              [first_address; second_address] example_hashes_differ)
    as (_ & _ & Hin & Hout).
  - now vm_compute.
  - split; [|split].
    + exact (Hin 0%nat first_address eq_refl).
    + exact (Hin 1%nat second_address eq_refl).
    + apply Hout. vm_compute. intuition discriminate.
Defined.

Lemma build_keeps_labels_by_address_witness :
  make_addr (build by_length 2 8 [first_address; second_address]) 2
  = [mkHashedLabel "ccc" 3; mkHashedLabel "d" 1]%string.
Proof.
  refine (proj1 (proj2 (build_keeps_labels_by_address by_length 2 8
                          [first_address; second_address] 1 second_address
                          example_hashes_differ _ _ _ eq_refl))).
  - repeat constructor.
  - now vm_compute.
  - now vm_compute.
Defined.

End SimpleSparseMapFacts.
